(** * ldsdirectory: household directory builder

    A shallow embedding of [ldsdirectory.py]: the [Member] dataclass with its
    two derived properties and [from_json], and the [DataFetcher] class with
    [load_members], [load_member_images], [_download_images] and
    [_download_file].

    Conventions of the embedding.
    - A decoded JSON document is a [pyval]: null, booleans, integers, strings,
      arrays and objects.  Non-integral numbers are not represented.
    - A Python [str] is a [string] whose characters are the code points
      U+0000 to U+00FF, one [ascii] per code point.
    - A Python exception is a value of [exn]; code that may raise returns a
      [result].
    - The network and the cache directory are explicit: every request is
      appended to a log, the answers come from an environment that may depend
      on the requests made so far, and the cache directory is a finite map
      from entry names to file contents. *)

From Stdlib Require Import ZArith Ascii String List DecimalString Bool Lia.
From Stdlib.Strings Require Import Byte.
From stdpp Require Import base option list gmap strings fin_maps fin_sets.

(** ** Exceptions and results *)

Inductive exn : Type :=
| KeyError
| TypeError
| AttributeError
| ValueError
| FileNotFoundError
| FileExistsError
| CredentialsNotSet          (* Exception('User or password not set') *)
| RemoteError (code : nat)   (* raised inside the client: transport, status, decoding *)
| OutsideCache.              (* a path that leaves the modelled directory *)

Inductive result (A : Type) : Type :=
| Ok (a : A)
| Raise (e : exn).
Arguments Ok {A} a.
Arguments Raise {A} e.

Definition result_bind {A B} (r : result A) (k : A → result B) : result B :=
  match r with
  | Ok a => k a
  | Raise e => Raise e
  end.

Declare Scope result_scope.
Delimit Scope result_scope with res.
Notation "'let*' x := r 'in' k" := (result_bind r (fun x => k))
  (at level 10, x name, r at level 100, k at level 200) : result_scope.

(** [[f(x) for x in xs]] where [f] may raise: left to right, first exception wins. *)
Fixpoint result_map {A B} (f : A → result B) (xs : list A) : result (list B) :=
  match xs with
  | [] => Ok []
  | x :: xs' =>
      (let* y := f x in
       let* ys := result_map f xs' in
       Ok (y :: ys))%res
  end.

(** ** Strings *)

Definition chr (n : nat) : ascii := ascii_of_nat n.
Definition ord (c : ascii) : nat := nat_of_ascii c.

Definition str1 (c : ascii) : string := String c EmptyString.

(** [str.isspace] on a single character, for the code points below 256. *)
Definition py_isspace (c : ascii) : bool :=
  let n := ord c in
  (9 <=? n) && (n <=? 13) || (28 <=? n) && (n <=? 32)
  || (n =? 133) || (n =? 160).

(** [str.strip()] the way the interpreter does it: advance an index from the
    left over whitespace, pull an index back from the right (never past
    the left one), and slice. *)
Fixpoint leading_space (s : string) : nat :=
  match s with
  | String c s' => if py_isspace c then S (leading_space s') else O
  | EmptyString => O
  end.

Fixpoint trailing_space (s : string) : nat :=
  match s with
  | String c s' =>
      let t := trailing_space s' in
      if (t =? String.length s') && py_isspace c then S t else t
  | EmptyString => O
  end.

Definition py_strip (s : string) : string :=
  let i := leading_space s in
  let j := Nat.max i (String.length s - trailing_space s) in
  substring i (j - i) s.

(** [str.split(sep)] for a one-character separator: scan with a start index
    [i] and a running length [n]; at each separator emit the slice
    [whole[i:i+n]] and restart behind it; emit the last slice at the end. *)
Fixpoint split_scan (sep : ascii) (whole : string) (i n : nat) (rest : string)
  : list string :=
  match rest with
  | EmptyString => [substring i n whole]
  | String c rest' =>
      if Ascii.eqb c sep
      then substring i n whole :: split_scan sep whole (i + n + 1) 0 rest'
      else split_scan sep whole i (S n) rest'
  end.

Definition py_split (sep : ascii) (s : string) : list string :=
  split_scan sep s 0 0 s.

(** [sep.join(parts)] *)
Definition py_join (sep : string) (parts : list string) : string :=
  String.concat sep parts.

(** [s.startswith(p)] *)
Fixpoint startswith (p s : string) : bool :=
  match p, s with
  | EmptyString, _ => true
  | String a p', String b s' => Ascii.eqb a b && startswith p' s'
  | String _ _, EmptyString => false
  end.

(** [s.replace(old, new)]: occurrences of [old] are found left to right and
    do not overlap.  [skip] counts the characters of a matched occurrence
    that are still to be passed over. *)
Fixpoint replace_scan (old new : string) (skip : nat) (s : string) : string :=
  match s with
  | EmptyString => EmptyString
  | String c s' =>
      match skip with
      | S k => replace_scan old new k s'
      | O =>
          if startswith old s
          then new +:+ replace_scan old new (String.length old - 1) s'
          else String c (replace_scan old new 0 s')
      end
  end.

(** With an empty [old], Python puts [new] before every character and at the end. *)
Fixpoint interleave (new s : string) : string :=
  match s with
  | EmptyString => new
  | String c s' => new +:+ String c (interleave new s')
  end.

Definition py_replace (old new s : string) : string :=
  match old with
  | EmptyString => interleave new s
  | String _ _ => replace_scan old new 0 s
  end.

(** [x in s] for strings: [x] occurs somewhere in [s]. *)
Fixpoint contains (x s : string) : bool :=
  startswith x s ||
  match s with
  | EmptyString => false
  | String _ s' => contains x s'
  end.

(** [os.path.join(a, p)] on a POSIX system. *)
Fixpoint last_char (s : string) : option ascii :=
  match s with
  | EmptyString => None
  | String c EmptyString => Some c
  | String _ s' => last_char s'
  end.

Definition endswith_slash (a : string) : bool :=
  match last_char a with
  | Some c => Ascii.eqb c "/"
  | None => false
  end.

Definition os_path_join (a p : string) : string :=
  if startswith "/" p then p
  else if (String.eqb a "" || endswith_slash a)%bool then a +:+ p
  else a +:+ "/" +:+ p.

(** ** Python values: what [.json()] hands back *)

#[local] Set Warnings "-register-all".

Inductive pyval : Type :=
| PNone
| PBool (b : bool)
| PInt (z : Z)
| PStr (s : string)
| PList (l : list pyval)
| PDict (d : list (string * pyval)).

(** Truth value of an object, as tested by [if x:] and [filter(lambda x: x, ...)]. *)
Definition truthy (v : pyval) : bool :=
  match v with
  | PNone => false
  | PBool b => b
  | PInt z => negb (z =? 0)%Z
  | PStr s => negb (String.eqb s "")
  | PList l => match l with [] => false | _ => true end
  | PDict d => match d with [] => false | _ => true end
  end.

(** [d[k]] on a dictionary whose keys are unique: the entry for [k]. *)
Fixpoint dict_lookup (k : string) (d : list (string * pyval)) : option pyval :=
  match d with
  | [] => None
  | (k', v) :: d' => if String.eqb k' k then Some v else dict_lookup k d'
  end.

(** [v[k]] for a string key [k]: only a dictionary can be subscripted by a
    string; a missing key is a [KeyError], any other receiver a [TypeError]. *)
Definition py_getitem (v : pyval) (k : string) : result pyval :=
  match v with
  | PDict d =>
      match dict_lookup k d with
      | Some x => Ok x
      | None => Raise KeyError
      end
  | _ => Raise TypeError
  end.

(** [for x in v]: the elements of a list, the keys of a dictionary, the
    characters of a string; anything else is not iterable. *)
Definition py_iter (v : pyval) : result (list pyval) :=
  match v with
  | PList l => Ok l
  | PDict d => Ok (map (λ kv, PStr kv.1) d)
  | PStr s => Ok (map (λ c, PStr (str1 c)) (list_ascii_of_string s))
  | _ => Raise TypeError
  end.

(** [repr] and [str]. *)
Definition hex_digit (n : nat) : ascii :=
  match String.get n "0123456789abcdef" with
  | Some c => c
  | None => "0"%char
  end.

Definition escape_hex (c : ascii) : string :=
  String "\" (String "x" (String (hex_digit (ord c / 16))
                              (String (hex_digit (ord c mod 16)) EmptyString))).

Definition py_isprintable (c : ascii) : bool :=
  let n := ord c in
  (32 <=? n) && (n <=? 126) || (161 <=? n) && negb (n =? 173).

Definition squote : ascii := "039".
Definition dquote : ascii := "034".

Definition repr_char (quote c : ascii) : string :=
  if (Ascii.eqb c quote || Ascii.eqb c "\")%bool then String "\" (str1 c)
  else if ord c =? 9 then String "\" "t"
  else if ord c =? 10 then String "\" "n"
  else if ord c =? 13 then String "\" "r"
  else if py_isprintable c then str1 c
  else escape_hex c.

Definition repr_str (s : string) : string :=
  let quote :=
    if (contains (str1 squote) s && negb (contains (str1 dquote) s))%bool
    then dquote else squote in
  String quote
    (String.concat "" (map (repr_char quote) (list_ascii_of_string s))
     +:+ str1 quote).

Definition repr_int (z : Z) : string := NilZero.string_of_int (Z.to_int z).

Fixpoint py_repr (v : pyval) : string :=
  match v with
  | PNone => "None"
  | PBool true => "True"
  | PBool false => "False"
  | PInt z => repr_int z
  | PStr s => repr_str s
  | PList l => "[" +:+ String.concat ", " (map py_repr l) +:+ "]"
  | PDict d =>
      "{" +:+ String.concat ", "
                (map (λ kv, repr_str kv.1 +:+ ": " +:+ py_repr kv.2) d) +:+ "}"
  end.

Definition py_str (v : pyval) : string :=
  match v with
  | PStr s => s
  | _ => py_repr v
  end.

(** Keys of a Python [dict].  Lists and dictionaries are unhashable; [True]
    and [1] (and [False] and [0]) are one and the same key. *)
Inductive pykey : Type :=
| KNone
| KInt (z : Z)
| KStr (s : string).

Definition py_hash (v : pyval) : result pykey :=
  match v with
  | PNone => Ok KNone
  | PBool b => Ok (KInt (if b then 1 else 0)%Z)
  | PInt z => Ok (KInt z)
  | PStr s => Ok (KStr s)
  | PList _ | PDict _ => Raise TypeError
  end.

#[global] Instance pykey_eq_dec : EqDecision pykey.
Proof. solve_decision. Defined.

#[global] Instance pykey_countable : Countable pykey.
Proof.
  refine (inj_countable'
            (λ k, match k with
                  | KNone => inl ()
                  | KInt z => inr (inl z)
                  | KStr s => inr (inr s)
                  end)
            (λ x, match x with
                  | inl _ => KNone
                  | inr (inl z) => KInt z
                  | inr (inr s) => KStr s
                  end) _).
  intros []; reflexivity.
Defined.

(** A [dict] with string keys that remembers insertion order: assigning to a
    key that is present replaces the value where it stands, a new key goes
    to the end. *)
Section ordered_dict.
Context {V : Type}.

Fixpoint dict_get (k : string) (d : list (string * V)) : option V :=
  match d with
  | [] => None
  | (k', v) :: d' => if String.eqb k' k then Some v else dict_get k d'
  end.

Definition dict_contains (k : string) (d : list (string * V)) : bool :=
  match dict_get k d with Some _ => true | None => false end.

Fixpoint dict_set (k : string) (v : V) (d : list (string * V))
  : list (string * V) :=
  match d with
  | [] => [(k, v)]
  | (k', v') :: d' =>
      if String.eqb k' k then (k', v) :: d' else (k', v') :: dict_set k v d'
  end.

Definition dict_values (d : list (string * V)) : list V := map snd d.
End ordered_dict.

(** ** class Member *)

Module Member.

Record t : Type := mk {
  id : pyval;
  member_number : pyval;
  given_name : pyval;
  surname : pyval;
  preferred_name : pyval;
  email : pyval;
  phone : pyval;
  address_parts : list pyval;
  calling : pyval;                 (* Optional[str]: [PNone] when there is none *)
  image_path : option string;
}.

(** [member.image_path = p] *)
Definition set_image_path (p : string) (self : t) : t :=
  mk (id self) (member_number self) (given_name self) (surname self)
     (preferred_name self) (email self) (phone self) (address_parts self)
     (calling self) (Some p).

(** Only a [str] has a [split] method. *)
Definition formatted_name (self : t) : result string :=
  match preferred_name self with
  | PStr name =>
      let parts := py_split "," name in
      let parts := map py_strip parts in
      let parts := rev parts in
      Ok (py_join " " parts)
  | _ => Raise AttributeError
  end.

Definition no_calling : string := "<i>No calling</i>".

Definition formatted_calling (self : t) : pyval :=
  if truthy (calling self) then calling self else PStr no_calling.

Definition from_json (data : pyval) (calling : pyval) : result t :=
  (let* desc1 := py_getitem data "desc1" in
   let* desc2 := py_getitem data "desc2" in
   let* desc3 := py_getitem data "desc3" in
   let* desc4 := py_getitem data "desc4" in
   let* desc5 := py_getitem data "desc5" in
   let address_parts := [desc1; desc2; desc3; desc4; desc5] in
   let address_parts := List.filter truthy address_parts in
   let* hoh := py_getitem data "headOfHouse" in
   let* individualId := py_getitem hoh "individualId" in
   let* hoh := py_getitem data "headOfHouse" in
   let* memberId := py_getitem hoh "memberId" in
   let* hoh := py_getitem data "headOfHouse" in
   let* givenName1 := py_getitem hoh "givenName1" in
   let* hoh := py_getitem data "headOfHouse" in
   let* surname := py_getitem hoh "surname" in
   let* hoh := py_getitem data "headOfHouse" in
   let* preferredName := py_getitem hoh "preferredName" in
   let* hoh := py_getitem data "headOfHouse" in
   let* email := py_getitem hoh "email" in
   let* hoh := py_getitem data "headOfHouse" in
   let* phone := py_getitem hoh "phone" in
   Ok (mk individualId memberId givenName1 surname preferredName email phone
          address_parts calling None))%res.

End Member.

(** ** The world outside the process *)

(** Requests made through the client, in the order they are made. *)
Inductive request : Type :=
| Get (path : list string) (member : option string)
    (* self._client.get('a', 'b', member=m): path a/b, parameter m *)
| SessionGet (url : pyval).
    (* self._client.session.get(url, stream=True) *)

#[global] Instance byte_eq_dec : EqDecision byte := Byte.byte_eq_dec.

(** What a streamed response delivers: the chunks received, and the
    exception that ends the iteration early, if any. *)
Record stream : Type := mk_stream {
  chunks : list (list byte);
  broken : option exn;
}.

(** [set(ids) - set(downloaded_ids)] *)
Definition missing_set (ids downloaded_ids : list string) : gset string :=
  list_to_set ids ∖ list_to_set downloaded_ids.

(** The environment answers requests (an answer may depend on the requests
    made before) and fixes what the language leaves open: the order in which
    a set difference iterates and the order in which a directory is listed. *)
Record environment : Type := mk_environment {
  respond_json : list request → list string → option string → result pyval;
  respond_stream : list request → pyval → result stream;
  set_order : list string → list string → list string;
  set_order_perm : ∀ a b,
    set_order a b ≡ₚ elements (missing_set a b);
  dir_order : gmap string (list byte) → list string;
  dir_order_perm : ∀ files, dir_order files ≡ₚ elements (dom files);
}.

(** The fields of a [DataFetcher].  [_cache_dir] is assigned once, in
    [__init__], from [output_dir], and is a function of it below. *)
Record fetcher : Type := mk_fetcher {
  _output_dir : string;
  _members : list (string * Member.t);
  _ids : list string;
}.

(** The state a method runs in: the object, the cache directory ([None]
    while it does not exist, else its regular files by name) and the log of
    requests.  Nothing else of the file system is represented. *)
Record state : Type := mk_state {
  self : fetcher;
  cache : option (gmap string (list byte));
  log : list request;
}.

Definition with_self (f : fetcher) (st : state) : state :=
  mk_state f (cache st) (log st).
Definition with_cache (c : option (gmap string (list byte))) (st : state) : state :=
  mk_state (self st) c (log st).
Definition with_log (l : list request) (st : state) : state :=
  mk_state (self st) (cache st) l.

(** ** Programs: state passing with exceptions *)

Definition prog (A : Type) : Type := state → state * result A.

Definition ret {A} (a : A) : prog A := λ st, (st, Ok a).
Definition raise {A} (e : exn) : prog A := λ st, (st, Raise e).
Definition bind {A B} (m : prog A) (k : A → prog B) : prog B :=
  λ st, match m st with
        | (st', Ok a) => k a st'
        | (st', Raise e) => (st', Raise e)
        end.
Definition lift {A} (r : result A) : prog A := λ st, (st, r).
Definition get_state : prog state := λ st, (st, Ok st).
Definition modify (f : state → state) : prog unit := λ st, (f st, Ok tt).

Declare Scope prog_scope.
Delimit Scope prog_scope with prog.
Bind Scope prog_scope with prog.
Notation "'let*' x := m 'in' k" := (bind m (fun x => k))
  (at level 10, x name, m at level 100, k at level 200) : prog_scope.
Notation "m1 ;; m2" := (bind m1 (fun _ => m2))
  (at level 100, right associativity) : prog_scope.

(** [for x in xs: body(x)] *)
Fixpoint for_each {A} (body : A → prog unit) (xs : list A) : prog unit :=
  match xs with
  | [] => ret tt
  | x :: xs' => (body x ;; for_each body xs')%prog
  end.

Definition has_nul (p : string) : bool := contains (str1 (chr 0)) p.

(** The entry of directory [dir] that [path] names, when [path] is [dir],
    a slash, and one component. *)
Definition drop_prefix (p s : string) : option string :=
  if startswith p s
  then Some (substring (String.length p) (String.length s - String.length p) s)
  else None.

Definition entry_of_path (dir path : string) : option string :=
  match drop_prefix (dir +:+ "/") path with
  | Some name =>
      if (contains "/" name || String.eqb name "" || String.eqb name "."
          || String.eqb name "..")%bool
      then None else Some name
  | None => None
  end.

(** ** class DataFetcher *)

Module DataFetcher.
Section methods.
Context (env : environment).

Definition _cache_dir (f : fetcher) : string :=
  os_path_join (_output_dir f) "cache".

(** [__init__].  [user] and [password] are what [os.getenv] gives once
    [load_dotenv()] has run: [None] or a string.  [new_client] stands for
    the constructor [Client(user, password)] of the imported client class,
    which may raise; the object is complete only when it has returned. *)
Definition falsy_env (v : option string) : bool :=
  match v with
  | None => true
  | Some x => String.eqb x ""
  end.

Definition init (new_client : option string → option string → result unit)
    (output_dir : string) (user password : option string) : result fetcher :=
  if (falsy_env user || falsy_env password)%bool
  then Raise CredentialsNotSet
  else (let* _ := new_client user password in
        Ok (mk_fetcher output_dir [] []))%res.

(** [list(self._members.values())] *)
Definition members (f : fetcher) : list Member.t := dict_values (_members f).

(** *** The client and the file system *)

Definition client_get (path : list string) (member : option string)
  : prog pyval :=
  λ st, (with_log (log st ++ [Get path member]) st,
         respond_json env (log st) path member).

Definition session_get (url : pyval) : prog stream :=
  λ st, (with_log (log st ++ [SessionGet url]) st,
         respond_stream env (log st) url).

(** The file-system calls know one directory, the cache directory. *)
Definition in_cache_dir {A} (p : string) (k : prog A) : prog A :=
  λ st, if String.eqb p (_cache_dir (self st)) then k st
        else (st, Raise OutsideCache).

Definition os_path_exists (p : string) : prog bool :=
  in_cache_dir p
    (λ st, (st, Ok (negb (has_nul p) && bool_decide (is_Some (cache st))))).

Definition os_makedirs (p : string) : prog unit :=
  in_cache_dir p
    (λ st, if has_nul p then (st, Raise ValueError)
           else match cache st with
                | None => (with_cache (Some ∅) st, Ok tt)
                | Some _ => (st, Raise FileExistsError)
                end).

Definition os_listdir (p : string) : prog (list string) :=
  in_cache_dir p
    (λ st, if has_nul p then (st, Raise ValueError)
           else match cache st with
                | Some files => (st, Ok (dir_order env files))
                | None => (st, Raise FileNotFoundError)
                end).

(** [open(file_path, 'wb')]: creates the file or empties it.  The name of
    the entry stands for the open file. *)
Definition open_wb (file_path : string) : prog string :=
  λ st, if has_nul file_path then (st, Raise ValueError)
        else match entry_of_path (_cache_dir (self st)) file_path with
             | None => (st, Raise OutsideCache)
             | Some name =>
                 match cache st with
                 | None => (st, Raise FileNotFoundError)
                 | Some files =>
                     (with_cache (Some (<[name := []]> files)) st, Ok name)
                 end
             end.

(** [f.write(chunk); f.flush()] *)
Definition file_write (name : string) (chunk : list byte) : prog unit :=
  modify (λ st, with_cache (alter (λ old, old ++ chunk) name <$> cache st) st).

(** *** load_members *)

(** The [for calling in data['callings']] loop.  In an assignment the right
    side is evaluated before the subscript of the target. *)
Fixpoint index_callings (callings : list pyval)
    (ids_to_calling : gmap pykey pyval) : result (gmap pykey pyval) :=
  match callings with
  | [] => Ok ids_to_calling
  | calling :: rest =>
      (let* name := py_getitem calling "callingName" in
       let* key := py_getitem calling "individualId" in
       let* h := py_hash key in
       index_callings rest (<[h := name]> ids_to_calling))%res
  end.

(** [ids_to_calling.get(k)] for a string [k] *)
Definition calling_get (ids_to_calling : gmap pykey pyval) (k : string)
  : pyval :=
  default PNone (ids_to_calling !! KStr k).

(** [data['headOfHouse']['individualId']] *)
Definition head_id (data : pyval) : result pyval :=
  (let* hoh := py_getitem data "headOfHouse" in
   py_getitem hoh "individualId")%res.

Definition set_member (m : Member.t) : prog unit :=
  modify (λ st,
    let f := self st in
    with_self (mk_fetcher (_output_dir f)
                 (dict_set (py_str (Member.id m)) m (_members f))
                 (_ids f)) st).

Definition set_ids (ids : list string) : prog unit :=
  modify (λ st,
    let f := self st in
    with_self (mk_fetcher (_output_dir f) (_members f) ids) st).

Definition load_members : prog unit :=
  (let* data := client_get ["unit-members-and-callings"] None in
   let* callings := lift (py_getitem data "callings") in
   let* callings := lift (py_iter callings) in
   let* ids_to_calling := lift (index_callings callings ∅) in
   let* households := lift (py_getitem data "households") in
   let* households := lift (py_iter households) in
   let* members :=
     lift (result_map
             (λ data,
                (let* i := head_id data in
                 Member.from_json data (calling_get ids_to_calling (py_str i)))%res)
             households) in
   for_each set_member members ;;
   let* households := lift (py_getitem data "households") in
   let* households := lift (py_iter households) in
   let* ids :=
     lift (result_map (λ member, (let* i := head_id member in Ok (py_str i))%res)
             households) in
   set_ids ids)%prog.

(** *** _download_file *)

(** [if chunk: f.write(chunk); f.flush()] *)
Definition write_chunk (f : string) (chunk : list byte) : prog unit :=
  match chunk with
  | [] => ret tt
  | _ => file_write f chunk
  end.

Definition _download_file (file_path : string) (url : pyval) : prog unit :=
  (let* res := session_get url in
   let* f := open_wb file_path in
   for_each (write_chunk f) (chunks res) ;;
   match broken res with
   | Some e => raise e
   | None => ret tt
   end)%prog.

(** *** _download_images *)

(** [entry.replace('.jpg', '')], and the comprehension over the listing
    that both [load_member_images] and [_download_images] build. *)
Definition cached_id (entry : string) : string := py_replace ".jpg" "" entry.

Definition downloaded_ids (entries : list string) : list string :=
  map cached_id entries.

(** One turn of [for photo_data in data]. *)
Definition download_entry (photo_data : pyval) : prog unit :=
  (let* large := lift (py_getitem photo_data "largeUri") in
   if truthy large then
     let* i := lift (py_getitem photo_data "individualId") in
     let id := py_str i in
     let* st := get_state in
     let file_path := os_path_join (_cache_dir (self st)) (id +:+ ".jpg") in
     let* url := lift (py_getitem photo_data "largeUri") in
     _download_file file_path url
   else ret tt)%prog.

Definition _download_images (override : bool) : prog unit :=
  (let* st := get_state in
   let* downloaded :=
     (if negb override
      then let* entries := os_listdir (_cache_dir (self st)) in
           ret (downloaded_ids entries)
      else ret []) in
   let missing_ids := set_order env (_ids (self st)) downloaded in
   let* data :=
     client_get ["photo-url"; "individual"] (Some (py_join "," missing_ids)) in
   let* photos := lift (py_iter data) in
   for_each download_entry photos)%prog.

(** *** load_member_images *)

Definition set_image_path (id path : string) : prog unit :=
  λ st,
    let f := self st in
    match dict_get id (_members f) with
    | Some m =>
        (with_self (mk_fetcher (_output_dir f)
                      (dict_set id (Member.set_image_path path m) (_members f))
                      (_ids f)) st, Ok tt)
    | None => (st, Raise KeyError)
    end.

Definition annotate (id : string) : prog unit :=
  (let* st := get_state in
   if dict_contains id (_members (self st))
   then set_image_path id
          (os_path_join (_cache_dir (self st)) (id +:+ ".jpg"))
   else ret tt)%prog.

Definition load_member_images (download override : bool) : prog unit :=
  (let* st := get_state in
   let* present := os_path_exists (_cache_dir (self st)) in
   (if negb present then os_makedirs (_cache_dir (self st)) else ret tt) ;;
   (if download then _download_images override else ret tt) ;;
   let* entries := os_listdir (_cache_dir (self st)) in
   for_each annotate (downloaded_ids entries))%prog.

End methods.
End DataFetcher.

(** ** The display name, as the specification words it

    Split on commas, trim whitespace from each part, reverse, join with
    single spaces.  These definitions do not go through indices; the
    lemmas below relate them to the scanning functions above. *)

Fixpoint split_on (sep : ascii) (s : string) : list string :=
  match s with
  | EmptyString => [EmptyString]
  | String c s' =>
      if Ascii.eqb c sep then EmptyString :: split_on sep s'
      else match split_on sep s' with
           | p :: ps => String c p :: ps
           | [] => [str1 c]
           end
  end.

Fixpoint trim_left (s : string) : string :=
  match s with
  | String c s' => if py_isspace c then trim_left s' else s
  | EmptyString => EmptyString
  end.

Fixpoint trim_right (s : string) : string :=
  match s with
  | EmptyString => EmptyString
  | String c s' =>
      match trim_right s' with
      | EmptyString => if py_isspace c then EmptyString else str1 c
      | String _ _ as r => String c r
      end
  end.

Definition trim (s : string) : string := trim_right (trim_left s).

Definition display_name_spec (preferred_name : string) : string :=
  String.concat " " (rev (map trim (split_on "," preferred_name))).

(** Every character of [s] is whitespace. *)
Fixpoint all_space (s : string) : bool :=
  match s with
  | EmptyString => true
  | String c s' => py_isspace c && all_space s'
  end.

Definition first_char (s : string) : option ascii :=
  match s with
  | String c _ => Some c
  | EmptyString => None
  end.

Definition is_space_opt (c : option ascii) : bool :=
  match c with
  | Some c => py_isspace c
  | None => false
  end.

(** [sep] does not occur in [s]. *)
Fixpoint free_of (sep : ascii) (s : string) : bool :=
  match s with
  | EmptyString => true
  | String c s' => negb (Ascii.eqb c sep) && free_of sep s'
  end.

(** [s.endswith(p)] *)
Definition endswith (p s : string) : bool :=
  startswith (String.rev p) (String.rev s).

(** ** Sample data *)

Definition sample_head (individualId : pyval) (preferredName : string) : pyval :=
  PDict [("individualId", individualId); ("memberId", PStr "000-1111-222A");
         ("givenName1", PStr "John"); ("surname", PStr "Smith");
         ("preferredName", PStr preferredName);
         ("email", PStr "js@example.org"); ("phone", PNone)].

Definition sample_household (individualId : pyval) (preferredName : string) : pyval :=
  PDict [("headOfHouse", sample_head individualId preferredName);
         ("desc1", PStr "1 Main St"); ("desc2", PStr ""); ("desc3", PNone);
         ("desc4", PStr "Springfield"); ("desc5", PStr "")].

(** The same record without the key [desc3]. *)
Definition household_without_desc3 : pyval :=
  PDict [("headOfHouse", sample_head (PInt 1) "Smith, John");
         ("desc1", PStr "1 Main St"); ("desc2", PStr "");
         ("desc4", PStr "Springfield"); ("desc5", PStr "")].

Definition sample_member (id : pyval) (preferredName : string) (calling : pyval)
  : Member.t :=
  Member.mk id (PStr "000-1111-222A") (PStr "John") (PStr "Smith")
    (PStr preferredName) (PStr "js@example.org") PNone
    [PStr "1 Main St"; PStr "Springfield"] calling None.

(** An environment for the examples: photos are on offer for individuals 1
    and 2, none for individual 3;
    sets and directories are walked in the order of [elements]. *)
Definition sample_payload : pyval :=
  PDict [("households", PList [sample_household (PStr "1") "Smith, John";
                               sample_household (PStr "2") "Doe, Jane"]);
         ("callings", PList [PDict [("individualId", PStr "1");
                                    ("callingName", PStr "Bishop")]])].

Definition sample_photos (member : option string) : pyval :=
  match member with
  | Some EmptyString => PList []
  | _ => PList [PDict [("individualId", PInt 1);
                       ("largeUri", PStr "https://photos.example.org/1")];
                PDict [("individualId", PInt 2);
                       ("largeUri", PStr "https://photos.example.org/2")];
                PDict [("individualId", PInt 3); ("largeUri", PStr "")]]
  end.

Definition sample_respond_json (payload : pyval) (_ : list request)
    (path : list string) (member : option string) : result pyval :=
  match path with
  | ["unit-members-and-callings"] => Ok payload
  | ["photo-url"; "individual"] => Ok (sample_photos member)
  | _ => Raise (RemoteError 404)
  end.

Definition sample_stream : stream :=
  mk_stream [[x89; x50]; []; [x4e; x47]]%byte None.

Definition sample_env (payload : pyval) : environment :=
  mk_environment (sample_respond_json payload)
    (λ _ _, Ok sample_stream)
    (λ a b, elements (missing_set a b)) (λ a b, Permutation_refl _)
    (λ files, elements (dom files)) (λ files, Permutation_refl _).

(** ** Vocabulary for the statements *)

Definition is_session_get (r : request) : bool :=
  match r with
  | SessionGet _ => true
  | Get _ _ => false
  end.

(** The content of the cache file called [name], if there is one. *)
Definition file_at (st : state) (name : string) : option (list byte) :=
  match cache st with
  | Some files => files !! name
  | None => None
  end.

(** The metadata entry [photo_data] offers a photo at [url]. *)
Definition has_photo (photo_data url : pyval) : Prop :=
  py_getitem photo_data "largeUri" = Ok url ∧ truthy url = true.

(** [name] is the cache entry at
    [os.path.join(cache_dir, str(photo_data['individualId']) + '.jpg')],
    and [photo_data] offers a photo. *)
Definition photo_entry (f : fetcher) (photo_data : pyval) (name : string) : Prop :=
  ∃ url i, has_photo photo_data url
           ∧ py_getitem photo_data "individualId" = Ok i
           ∧ entry_of_path (DataFetcher._cache_dir f)
               (os_path_join (DataFetcher._cache_dir f) (py_str i +:+ ".jpg"))
             = Some name.

(** What one turn of the last loop of [load_member_images] does to the
    registry. *)
Definition annotate_members (dir id : string) (members : list (string * Member.t))
  : list (string * Member.t) :=
  match dict_get id members with
  | Some m =>
      dict_set id (Member.set_image_path (os_path_join dir (id +:+ ".jpg")) m)
        members
  | None => members
  end.

(** The state once [load_member_images] has made sure of the directory. *)
Definition ensure_cache (st : state) : state :=
  match cache st with
  | Some _ => st
  | None => with_cache (Some ∅) st
  end.

(** [r] is the request for a photo that [answer], the outcome of the
    photo-url request, offers: the answer is a value, iterating over it
    gives entries, and [r] fetches the [largeUri] of one of them. *)
Definition offered_by (answer : result pyval) (r : request) : Prop :=
  ∃ data photos photo_data url,
    answer = Ok data ∧ py_iter data = Ok photos
    ∧ photo_data ∈ photos ∧ has_photo photo_data url ∧ r = SessionGet url.

(** The request [_download_images] makes when the set difference iterates
    as [ids]. *)
Definition photo_url_request (ids : list string) : request :=
  Get ["photo-url"; "individual"] (Some (py_join "," ids)).

(** Sample runs. *)
Definition initial_state : state := mk_state (mk_fetcher "/out" [] []) None [].

Definition loaded_state : state :=
  (DataFetcher.load_members (sample_env sample_payload) initial_state).1.

Definition after_first_run : state :=
  (DataFetcher.load_member_images (sample_env sample_payload) true false
     loaded_state).1.

Definition after_second_run : state :=
  (DataFetcher.load_member_images (sample_env sample_payload) true false
     after_first_run).1.

(** The cache holds "1.jpg"; individuals 1 and 2 are expected. *)
Definition one_cached_state : state :=
  mk_state (mk_fetcher "/out" [] ["1"; "2"]) (Some {["1.jpg" := []]}) [].

(** The cache holds "1.jpg"; individual 1 alone is expected. *)
Definition all_cached_state : state :=
  mk_state (mk_fetcher "/out" [] ["1"]) (Some {["1.jpg" := []]}) [].

(** A registry with Member "1" and a cache whose only file is called "1",
    without the extension. *)
Definition stray_file_state : state :=
  mk_state
    (mk_fetcher "/out" [("1", sample_member (PStr "1") "Smith, John" PNone)] ["1"])
    (Some {["1" := []]}) [].

Definition after_stray_file : state :=
  (DataFetcher.load_member_images (sample_env sample_payload) false false
     stray_file_state).1.

(** A metadata entry without the key [largeUri]. *)
Definition entry_without_uri : pyval := PDict [("individualId", PInt 1)].

(** The sample payload with the identifiers as JSON numbers. *)
Definition integer_callings : list pyval :=
  [PDict [("individualId", PInt 1); ("callingName", PStr "Bishop")]].

Definition integer_payload : pyval :=
  PDict [("households", PList [sample_household (PInt 1) "Smith, John";
                               sample_household (PInt 2) "Doe, Jane"]);
         ("callings", PList integer_callings)].

(** The callings of the Members in the registry, by key. *)
Definition callings_by_key (st : state) : list (string * pyval) :=
  map (λ kv, (kv.1, Member.calling kv.2)) (_members (self st)).

(** ** Vocabulary for the further properties *)

(** The key under which [load_members] files a Member: [str(member.id)]. *)
Definition member_key (m : Member.t) : string := py_str (Member.id m).

(** A Member with its [image_path] put back to [None]. *)
Definition forget_image (m : Member.t) : Member.t :=
  Member.mk (Member.id m) (Member.member_number m) (Member.given_name m)
    (Member.surname m) (Member.preferred_name m) (Member.email m)
    (Member.phone m) (Member.address_parts m) (Member.calling m) None.

(** A registry as a Python [dict] has it: no key twice, and every Member
    under [str] of its own [id]. *)
Definition registry_ok (f : fetcher) : Prop :=
  NoDup (map fst (_members f))
  ∧ Forall (λ kv, kv.1 = member_key kv.2) (_members f).

(** The two calls the script makes on its fetcher, one after the other:
    [fetcher.load_members()] and
    [fetcher.load_member_images(download_images, override_images)]. *)
Definition fetch (env : environment) (download override : bool) : prog unit :=
  (DataFetcher.load_members env ;;
   DataFetcher.load_member_images env download override)%prog.

(** What [load_members] reads out of a payload before it touches the
    object: the households, the Members built from them, and the
    identifiers. *)
Definition payload_households (data : pyval) : result (list pyval) :=
  (let* households := py_getitem data "households" in
   py_iter households)%res.

Definition payload_members (data : pyval) : result (list Member.t) :=
  (let* callings := py_getitem data "callings" in
   let* callings := py_iter callings in
   let* ids_to_calling := DataFetcher.index_callings callings ∅ in
   let* households := payload_households data in
   result_map
     (λ data,
        (let* i := DataFetcher.head_id data in
         Member.from_json data
           (DataFetcher.calling_get ids_to_calling (py_str i)))%res)
     households)%res.

Definition payload_ids (data : pyval) : result (list string) :=
  (let* households := payload_households data in
   result_map (λ member, (let* i := DataFetcher.head_id member in
                          Ok (py_str i))%res)
     households)%res.

(** [self._members[str(member.id)] = member] *)
Definition register (members : list (string * Member.t)) (m : Member.t)
  : list (string * Member.t) :=
  dict_set (member_key m) m members.

(** The last Member of [ms] whose key is [k], if any; else [before]. *)
Definition last_registered (k : string) (ms : list Member.t)
    (before : option Member.t) : option Member.t :=
  fold_left (λ acc m, if String.eqb (member_key m) k then Some m else acc)
    ms before.

(** A payload in which two households have the same head of house. *)
Definition twice_payload : pyval :=
  PDict [("households", PList [sample_household (PStr "1") "Smith, John";
                               sample_household (PStr "1") "Smith, Mary"]);
         ("callings", PList [])].

(** A calling list that names individual "1" twice. *)
Definition twice_callings : list pyval :=
  [PDict [("individualId", PStr "1"); ("callingName", PStr "Clerk")];
   PDict [("individualId", PStr "2"); ("callingName", PStr "Organist")];
   PDict [("individualId", PStr "1"); ("callingName", PStr "Bishop")]].

(** An environment whose photo-url answers are an error object. *)
Definition refusing_env : environment :=
  mk_environment
    (λ _ _ _, Ok (PDict [("error", PStr "not authorised")]))
    (λ _ _, Ok sample_stream)
    (λ a b, elements (missing_set a b)) (λ a b, Permutation_refl _)
    (λ files, elements (dom files)) (λ files, Permutation_refl _).

(** An environment in which no photo can be fetched. *)
Definition offline_photos_env : environment :=
  mk_environment (sample_respond_json sample_payload)
    (λ _ _, Raise (RemoteError 503))
    (λ a b, elements (missing_set a b)) (λ a b, Permutation_refl _)
    (λ files, elements (dom files)) (λ files, Permutation_refl _).

(** The distinct elements of a list, each where it first occurs. *)
Fixpoint distinct (l : list string) : list string :=
  match l with
  | [] => []
  | x :: l' => x :: filter (λ y, y ≠ x) (distinct l')
  end.

(** As [one_cached_state], with the expected identifiers listed in another
    order and more than once. *)
Definition duplicate_ids_state : state :=
  mk_state (mk_fetcher "/out" [] ["2"; "1"; "2"; "1"]) (Some {["1.jpg" := []]}) [].

(** A fetcher that already holds a Member, with an image path, whose
    household is not in the sample payload. *)
Definition stale_state : state :=
  mk_state
    (mk_fetcher "/out"
       [("9", Member.set_image_path "/out/cache/9.jpg"
                (sample_member (PStr "9") "Elder, Ann" (PStr "Organist")))]
       ["9"])
    None [].

(** * Proofs *)

(** ** Strings *)

#[local] Arguments String.append !_ _ / : simpl nomatch.

Lemma app_empty_r (s : string) : s +:+ "" = s.
Proof. induction s as [|c s IH]; simpl; [done | by rewrite IH]. Qed.

Lemma app_assoc_str (a b c : string) : (a +:+ b) +:+ c = a +:+ (b +:+ c).
Proof. induction a as [|x a IH]; simpl; [done | by rewrite IH]. Qed.

Lemma length_app_str (a b : string) :
  String.length (a +:+ b) = (String.length a + String.length b)%nat.
Proof. induction a as [|x a IH]; simpl; [done | by rewrite IH]. Qed.

Lemma substring_zero_app (a b : string) :
  substring 0 (String.length a) (a +:+ b) = a.
Proof.
  induction a as [|x a IH]; simpl.
  - by destruct b.
  - by rewrite IH.
Qed.

Lemma substring_skip_app (a b : string) (n : nat) :
  substring (String.length a) n (a +:+ b) = substring 0 n b.
Proof. induction a as [|x a IH]; simpl; done. Qed.

Lemma substring_middle (a b c : string) :
  substring (String.length a) (String.length b) (a +:+ b +:+ c) = b.
Proof. by rewrite substring_skip_app, substring_zero_app. Qed.

(** *** [split] *)

Lemma split_on_nonempty (sep : ascii) (s : string) : split_on sep s ≠ [].
Proof.
  induction s as [|c s IH]; simpl; [done|].
  destruct (Ascii.eqb c sep); [done|].
  by destruct (split_on sep s).
Qed.

Lemma split_scan_spec (sep : ascii) (rest : string) : ∀ pre cur,
  split_scan sep (pre +:+ cur +:+ rest) (String.length pre) (String.length cur) rest
  = match split_on sep rest with
    | p :: ps => (cur +:+ p) :: ps
    | [] => [cur]
    end.
Proof.
  induction rest as [|c rest IH]; intros pre cur; simpl.
  - by rewrite substring_middle, app_empty_r.
  - destruct (Ascii.eqb c sep) eqn:Hc.
    + rewrite substring_middle, app_empty_r. f_equal.
      specialize (IH (pre +:+ cur +:+ str1 c) EmptyString).
      rewrite !length_app_str in IH. simpl in IH.
      rewrite !app_assoc_str in IH. simpl in IH.
      rewrite Nat.add_assoc in IH. rewrite IH.
      pose proof (split_on_nonempty sep rest).
      by destruct (split_on sep rest).
    + specialize (IH pre (cur +:+ str1 c)).
      rewrite length_app_str in IH. simpl in IH.
      rewrite app_assoc_str in IH. simpl in IH.
      rewrite Nat.add_1_r in IH. rewrite IH.
      pose proof (split_on_nonempty sep rest).
      destruct (split_on sep rest); [done|].
      by rewrite app_assoc_str.
Qed.

(** The scanning [split] computes the parts the specification speaks of. *)
Lemma py_split_spec (sep : ascii) (s : string) : py_split sep s = split_on sep s.
Proof.
  unfold py_split.
  pose proof (split_scan_spec sep s EmptyString EmptyString) as H.
  simpl in H. rewrite H.
  pose proof (split_on_nonempty sep s).
  by destruct (split_on sep s).
Qed.

(** Joining the parts with the separator gives the string back ... *)
Lemma split_on_join (sep : ascii) (s : string) :
  String.concat (str1 sep) (split_on sep s) = s.
Proof.
  induction s as [|c s IH]; simpl; [done|].
  pose proof (split_on_nonempty sep s) as Hne.
  destruct (Ascii.eqb_spec c sep) as [->|Hc].
  - destruct (split_on sep s) as [|p ps]; [done|].
    simpl. simpl in IH. by rewrite IH.
  - destruct (split_on sep s) as [|p ps]; [done|].
    destruct ps as [|q ps]; simpl in *; by rewrite <- IH.
Qed.

(** ... no part holds a separator ... *)
Lemma split_on_free (sep : ascii) (s : string) :
  Forall (λ p, free_of sep p = true) (split_on sep s).
Proof.
  induction s as [|c s IH]; simpl.
  - by constructor.
  - destruct (Ascii.eqb c sep) eqn:Hc.
    + by constructor.
    + destruct (split_on sep s) as [|p ps].
      * constructor; [simpl; by rewrite Hc | done].
      * inversion IH; subst. constructor; [simpl; by rewrite Hc | done].
Qed.

(** ... and these two facts determine the parts. *)
Lemma split_on_unique (sep : ascii) (parts : list string) :
  parts ≠ [] →
  Forall (λ p, free_of sep p = true) parts →
  split_on sep (String.concat (str1 sep) parts) = parts.
Proof.
  induction parts as [|p ps IH]; [done|].
  intros _ Hfree. inversion Hfree as [|? ? Hp Hps]; subst.
  destruct ps as [|q ps].
  - simpl. clear IH Hfree Hps.
    induction p as [|c p IHp]; simpl; [done|].
    simpl in Hp. apply andb_true_iff in Hp as [Hc Hp].
    apply negb_true_iff in Hc. rewrite Hc, (IHp Hp). done.
  - assert (split_on sep (String.concat (str1 sep) (q :: ps)) = q :: ps) as Hrec
      by (apply IH; done).
    change (String.concat (str1 sep) (p :: q :: ps))
      with (p +:+ str1 sep +:+ String.concat (str1 sep) (q :: ps)).
    clear IH Hfree Hps.
    generalize dependent (String.concat (str1 sep) (q :: ps)).
    intros tail Hrec.
    induction p as [|c p IHp].
    + simpl. by rewrite Ascii.eqb_refl, Hrec.
    + simpl in Hp. apply andb_true_iff in Hp as [Hc Hp].
      apply negb_true_iff in Hc. simpl. rewrite Hc.
      simpl in IHp. by rewrite (IHp Hp).
Qed.

(** *** [strip] *)

Lemma leading_space_le (s : string) : leading_space s ≤ String.length s.
Proof.
  induction s as [|c s IH]; simpl; [lia|].
  destruct (py_isspace c); simpl; lia.
Qed.

Lemma trailing_space_le (s : string) : trailing_space s ≤ String.length s.
Proof.
  induction s as [|c s IH]; simpl; [lia|].
  destruct (trailing_space s =? String.length s) eqn:E;
    destruct (py_isspace c); simpl; lia.
Qed.

Lemma substring_leading (s : string) (n : nat) :
  substring (leading_space s) n s = substring 0 n (trim_left s).
Proof.
  induction s as [|c s IH]; simpl; [done|].
  destruct (py_isspace c); simpl; done.
Qed.

Lemma length_trim_left (s : string) :
  String.length (trim_left s) = String.length s - leading_space s.
Proof.
  induction s as [|c s IH]; simpl; [done|].
  destruct (py_isspace c); simpl; done.
Qed.

Lemma trim_left_first (s : string) :
  is_space_opt (first_char (trim_left s)) = false.
Proof.
  induction s as [|c s IH]; simpl; [done|].
  destruct (py_isspace c) eqn:E; simpl; [done | by rewrite E].
Qed.

Lemma trim_left_app (s : string) :
  ∃ l, s = l +:+ trim_left s ∧ all_space l = true.
Proof.
  induction s as [|c s (l & Hl & Hsp)]; simpl.
  - by exists EmptyString.
  - destruct (py_isspace c) eqn:E.
    + exists (String c l). simpl. rewrite E, Hsp. by rewrite <- Hl.
    + by exists EmptyString.
Qed.

Lemma length_trim_right (s : string) :
  String.length (trim_right s) = String.length s - trailing_space s.
Proof.
  induction s as [|c s IH]; simpl; [done|].
  pose proof (trailing_space_le s) as Hle.
  destruct (trim_right s) as [|x r] eqn:Hr; simpl in IH.
  - assert (trailing_space s = String.length s) as -> by lia.
    rewrite Nat.eqb_refl. simpl.
    destruct (py_isspace c); simpl; lia.
  - assert (trailing_space s ≠ String.length s) as Hne by lia.
    apply Nat.eqb_neq in Hne. rewrite Hne. simpl. lia.
Qed.

Lemma trim_right_app (s : string) :
  ∃ r, s = trim_right s +:+ r ∧ all_space r = true.
Proof.
  induction s as [|c s (r & Hr & Hsp)]; simpl.
  - by exists EmptyString.
  - destruct (trim_right s) as [|x t] eqn:Ht.
    + simpl in Hr. subst r.
      destruct (py_isspace c) eqn:E.
      * exists (String c s). simpl. by rewrite E, Hsp.
      * exists s. done.
    + exists r. simpl in *. split; [congruence | done].
Qed.

Lemma trim_right_last (s : string) :
  is_space_opt (last_char (trim_right s)) = false.
Proof.
  induction s as [|c s IH]; simpl; [done|].
  destruct (trim_right s) as [|x t] eqn:Ht.
  - destruct (py_isspace c) eqn:E; simpl; [done | by rewrite E].
  - done.
Qed.

Lemma trim_right_first (s : string) :
  is_space_opt (first_char s) = false →
  is_space_opt (first_char (trim_right s)) = false.
Proof.
  destruct s as [|c s]; simpl; [done|].
  intros Hc. destruct (trim_right s); [by rewrite Hc | done].
Qed.

Lemma substring_trim_right (s : string) :
  substring 0 (String.length s - trailing_space s) s = trim_right s.
Proof.
  rewrite <- length_trim_right.
  destruct (trim_right_app s) as (r & Hr & _).
  rewrite Hr at 2. apply substring_zero_app.
Qed.

Lemma trailing_space_nonspace (s : string) :
  s ≠ EmptyString → is_space_opt (first_char s) = false →
  trailing_space s < String.length s.
Proof.
  destruct s as [|c s]; [done|]. simpl. intros _ ->.
  pose proof (trailing_space_le s). rewrite andb_false_r. lia.
Qed.

Lemma trailing_space_app (l u : string) :
  trailing_space u < String.length u →
  trailing_space (l +:+ u) = trailing_space u.
Proof.
  intros Hu. induction l as [|c l IH]; simpl; [done|].
  rewrite IH, length_app_str.
  assert (trailing_space u ≠ String.length l + String.length u) as Hne by lia.
  apply Nat.eqb_neq in Hne. by rewrite Hne.
Qed.

Lemma trailing_space_all (s : string) :
  all_space s = true → trailing_space s = String.length s.
Proof.
  induction s as [|c s IH]; simpl; [done|].
  intros [Hc Hs]%andb_true_iff. rewrite (IH Hs), Nat.eqb_refl, Hc. done.
Qed.

(** The index-based [strip] trims both ends. *)
Lemma py_strip_spec (s : string) : py_strip s = trim s.
Proof.
  unfold py_strip, trim. rewrite substring_leading.
  rewrite <- substring_trim_right. f_equal.
  destruct (trim_left_app s) as (l & Hl & Hsp).
  pose proof (length_trim_left s) as Hlen.
  pose proof (leading_space_le s) as Hle.
  pose proof (trailing_space_le (trim_left s)) as Hle'.
  destruct (trim_left s) as [|c u] eqn:Hu.
  - rewrite app_empty_r in Hl. subst l.
    rewrite (trailing_space_all s Hsp). simpl in *. lia.
  - assert (trailing_space (String c u) < String.length (String c u)) as Hlt.
    { apply trailing_space_nonspace; [done|]. rewrite <- Hu. apply trim_left_first. }
    rewrite Hl at 3. rewrite (trailing_space_app l _ Hlt). lia.
Qed.

(** What trimming means: whitespace is cut off at both ends, and what is
    left neither begins nor ends with whitespace. *)
Lemma trim_spec (s : string) :
  ∃ l r, s = l +:+ trim s +:+ r
         ∧ all_space l = true ∧ all_space r = true
         ∧ is_space_opt (first_char (trim s)) = false
         ∧ is_space_opt (last_char (trim s)) = false.
Proof.
  unfold trim.
  destruct (trim_left_app s) as (l & Hl & Hsl).
  destruct (trim_right_app (trim_left s)) as (r & Hr & Hsr).
  exists l, r. repeat split; try done.
  - by rewrite <- Hr.
  - apply trim_right_first, trim_left_first.
  - apply trim_right_last.
Qed.

(** *** [replace] *)

Lemma startswith_app (p s : string) : startswith p (p +:+ s) = true.
Proof.
  induction p as [|c p IH]; simpl; [by destruct s|].
  by rewrite Ascii.eqb_refl, IH.
Qed.

Lemma replace_scan_skip (old new o b : string) :
  replace_scan old new (String.length o) (o +:+ b) = replace_scan old new 0 b.
Proof.
  induction o as [|c o IH]; simpl; [|done].
  destruct b; done.
Qed.

(** At an occurrence, [new] is emitted and the scan resumes behind it. *)
Lemma replace_scan_here (c : ascii) (o new b : string) :
  replace_scan (String c o) new 0 (String c o +:+ b)
  = new +:+ replace_scan (String c o) new 0 b.
Proof.
  change (String c o +:+ b) with (String c (o +:+ b)).
  cbn [replace_scan].
  change (String c (o +:+ b)) with (String c o +:+ b).
  rewrite startswith_app.
  replace (String.length (String c o) - 1) with (String.length o)
    by (simpl; lia).
  by rewrite replace_scan_skip.
Qed.

(** Where [old] does not occur, nothing changes. *)
Lemma replace_scan_absent (old new s : string) :
  contains old s = false → replace_scan old new 0 s = s.
Proof.
  induction s as [|c s IH]; [done|].
  cbn [contains replace_scan]. intros [H1 H2]%orb_false_iff.
  rewrite H1. by rewrite (IH H2).
Qed.

Lemma py_replace_absent (old new s : string) :
  contains old s = false → py_replace old new s = s.
Proof.
  destruct old as [|c o]; [by destruct s|].
  apply replace_scan_absent.
Qed.

(** An occurrence of ".jpg" cannot begin inside a prefix that holds none:
    the dot is its first character only. *)
Lemma jpg_not_straddling (a b : string) :
  a ≠ EmptyString → contains ".jpg" a = false →
  startswith ".jpg" (a +:+ ".jpg" +:+ b) = false.
Proof.
  intros Hne Ha. destruct a as [|c a]; [done|].
  cbn [contains] in Ha. apply orb_false_iff in Ha as [Ha _].
  destruct a as [|x1 [|x2 [|x3 a]]]; simpl in *;
    destruct (Ascii.eqb "." c); simpl in *; try done;
    destruct (Ascii.eqb "j" x1); simpl in *; try done;
    destruct (Ascii.eqb "p" x2); simpl in *; try done.
Qed.

(** Up to and including the leftmost occurrence: the prefix stays, the
    occurrence goes, and the rest is treated the same way. *)
Lemma py_replace_jpg_leftmost (a b : string) :
  contains ".jpg" a = false →
  py_replace ".jpg" "" (a +:+ ".jpg" +:+ b) = a +:+ py_replace ".jpg" "" b.
Proof.
  unfold py_replace. intros Ha.
  induction a as [|c a IH].
  - change ("" +:+ ".jpg" +:+ b) with (".jpg" +:+ b).
    by rewrite replace_scan_here.
  - pose proof (jpg_not_straddling (String c a) b ltac:(done) Ha) as Hs.
    change (String c a +:+ ".jpg" +:+ b) with (String c (a +:+ ".jpg" +:+ b)) in *.
    cbn [replace_scan]. rewrite Hs.
    cbn [contains] in Ha. apply orb_false_iff in Ha as [_ Ha].
    by rewrite (IH Ha).
Qed.

(** A name made of an identifier without ".jpg" and the extension gives
    the identifier back. *)
Lemma py_replace_jpg_suffix (id : string) :
  contains ".jpg" id = false → py_replace ".jpg" "" (id +:+ ".jpg") = id.
Proof.
  intros H. change (id +:+ ".jpg") with (id +:+ ".jpg" +:+ "").
  rewrite (py_replace_jpg_leftmost id "" H).
  change (py_replace ".jpg" "" "") with "". apply app_empty_r.
Qed.

(** ** Member *)

(** C6: for every [preferred_name] that is a string, [formatted_name] is the
    comma-separated parts, each trimmed of whitespace, in reverse order,
    joined by single spaces; "Smith, John" gives "John Smith" and
    "Doe, Jane, Q" gives "Q Jane Doe". *)
Theorem formatted_name_spec (m : Member.t) (name : string)
    (Hname : Member.preferred_name m = PStr name) :
  Member.formatted_name m = Ok (display_name_spec name)
  ∧ (name = "Smith, John" → Member.formatted_name m = Ok "John Smith")
  ∧ (name = "Doe, Jane, Q" → Member.formatted_name m = Ok "Q Jane Doe").
Proof.
  assert (Member.formatted_name m = Ok (display_name_spec name)) as E.
  { unfold Member.formatted_name, display_name_spec, py_join.
    rewrite Hname, py_split_spec. do 3 f_equal.
    apply map_ext. intros p. apply py_strip_spec. }
  split; [exact E|]. split; intros ->; rewrite E; reflexivity.
Qed.

Lemma formatted_name_spec_witness :
  Member.formatted_name (sample_member (PInt 1) "Smith, John" PNone)
  = Ok "John Smith".
Proof.
  apply (formatted_name_spec (sample_member (PInt 1) "Smith, John" PNone)
           "Smith, John"); reflexivity.
Defined.

(** C8 (as stated, fails): a Member may store the empty string as its
    calling; [formatted_calling] then gives the placeholder, not the stored
    string. *)
Lemma formatted_calling_empty_string :
  Member.calling (sample_member (PInt 1) "Smith, John" (PStr "")) = PStr ""
  ∧ Member.formatted_calling (sample_member (PInt 1) "Smith, John" (PStr ""))
    = PStr "<i>No calling</i>"
  ∧ Member.formatted_calling (sample_member (PInt 1) "Smith, John" (PStr ""))
    ≠ Member.calling (sample_member (PInt 1) "Smith, John" (PStr "")).
Proof. repeat split; done. Qed.

(** C8 (amended): [formatted_calling] returns the stored calling verbatim
    when it is a non-empty string, and the fixed placeholder when the
    calling is absent or the empty string. *)
Theorem formatted_calling_spec (m : Member.t) :
  (∀ s, Member.calling m = PStr s → s ≠ EmptyString →
        Member.formatted_calling m = PStr s)
  ∧ (Member.calling m = PNone ∨ Member.calling m = PStr EmptyString →
     Member.formatted_calling m = PStr "<i>No calling</i>").
Proof.
  unfold Member.formatted_calling. split.
  - intros s -> Hs. simpl.
    destruct (String.eqb_spec s EmptyString); done.
  - intros [-> | ->]; reflexivity.
Qed.

Lemma formatted_calling_spec_witness :
  Member.formatted_calling (sample_member (PInt 1) "Smith, John" (PStr "Bishop"))
  = PStr "Bishop"
  ∧ Member.formatted_calling (sample_member (PInt 2) "Doe, Jane" PNone)
    = PStr "<i>No calling</i>".
Proof.
  split.
  - apply (proj1 (formatted_calling_spec
                    (sample_member (PInt 1) "Smith, John" (PStr "Bishop")))
             "Bishop"); [reflexivity | discriminate].
  - apply (proj2 (formatted_calling_spec (sample_member (PInt 2) "Doe, Jane" PNone))).
    left. reflexivity.
Defined.

(** C5 (as stated, fails): a record from which one of the five description
    keys is missing yields no Member; [from_json] raises [KeyError]. *)
Lemma from_json_missing_description :
  py_getitem household_without_desc3 "desc3" = Raise KeyError
  ∧ Member.from_json household_without_desc3 PNone = Raise KeyError.
Proof. split; reflexivity. Qed.

(** C5 (amended): for every household record that carries the five
    description keys (each value may be null or empty) and a head of house
    with its seven fields, [from_json] produces a Member whose [id] is the
    head of house's individual identifier and whose [address_parts] are the
    five description values without the false ones (null, the empty string),
    in their original order. *)
Theorem from_json_spec (data calling : pyval)
    (d1 d2 d3 d4 d5 hoh i mn gn sn pn em ph : pyval)
    (H1 : py_getitem data "desc1" = Ok d1)
    (H2 : py_getitem data "desc2" = Ok d2)
    (H3 : py_getitem data "desc3" = Ok d3)
    (H4 : py_getitem data "desc4" = Ok d4)
    (H5 : py_getitem data "desc5" = Ok d5)
    (Hh : py_getitem data "headOfHouse" = Ok hoh)
    (Hi : py_getitem hoh "individualId" = Ok i)
    (Hmn : py_getitem hoh "memberId" = Ok mn)
    (Hgn : py_getitem hoh "givenName1" = Ok gn)
    (Hsn : py_getitem hoh "surname" = Ok sn)
    (Hpn : py_getitem hoh "preferredName" = Ok pn)
    (Hem : py_getitem hoh "email" = Ok em)
    (Hph : py_getitem hoh "phone" = Ok ph) :
  ∃ m, Member.from_json data calling = Ok m
       ∧ Member.id m = i
       ∧ Member.address_parts m = List.filter truthy [d1; d2; d3; d4; d5]
       ∧ (∀ v, v ∈ Member.address_parts m →
               v ≠ PNone ∧ v ≠ PStr EmptyString ∧ v ∈ [d1; d2; d3; d4; d5])
       ∧ (∀ s, s ≠ EmptyString → PStr s ∈ [d1; d2; d3; d4; d5] →
               PStr s ∈ Member.address_parts m).
Proof.
  unfold Member.from_json.
  rewrite H1, H2, H3, H4, H5. cbn [result_bind].
  rewrite Hh. cbn [result_bind].
  rewrite Hi, Hmn, Hgn, Hsn, Hpn, Hem, Hph. cbn [result_bind].
  eexists. split; [reflexivity|]. cbn [Member.id Member.address_parts].
  split; [reflexivity|]. split; [reflexivity|]. split.
  - intros v Hv. apply list_elem_of_In, filter_In in Hv as [Hin Ht].
    apply list_elem_of_In in Hin.
    repeat split; [intros -> | intros -> | ]; done.
  - intros s Hs Hin. apply list_elem_of_In, filter_In. split.
    + by apply list_elem_of_In.
    + simpl. by destruct (String.eqb_spec s EmptyString).
Qed.

Lemma from_json_spec_witness :
  ∃ m, Member.from_json (sample_household (PInt 7) "Smith, John") (PStr "Bishop")
       = Ok m
       ∧ Member.id m = PInt 7
       ∧ Member.address_parts m = [PStr "1 Main St"; PStr "Springfield"].
Proof.
  destruct (from_json_spec (sample_household (PInt 7) "Smith, John") (PStr "Bishop")
              (PStr "1 Main St") (PStr "") PNone (PStr "Springfield") (PStr "")
              (sample_head (PInt 7) "Smith, John") (PInt 7)
              (PStr "000-1111-222A") (PStr "John") (PStr "Smith")
              (PStr "Smith, John") (PStr "js@example.org") PNone
              eq_refl eq_refl eq_refl eq_refl eq_refl eq_refl eq_refl
              eq_refl eq_refl eq_refl eq_refl eq_refl eq_refl)
    as (m & Hm & Hid & Haddr & _).
  exists m. repeat split; assumption.
Defined.

(** ** DataFetcher *)

Import DataFetcher.

Lemma with_cache_same (st : state) : with_cache (cache st) st = st.
Proof. by destruct st. Qed.

Section download.
Context (env : environment).

Lemma write_chunks_run (f : string) (cs : list (list byte)) : ∀ st,
  for_each (write_chunk f) cs st
  = (with_cache (alter (λ old, old ++ concat cs) f <$> cache st) st, Ok tt).
Proof.
  induction cs as [|c cs IH]; intros st; simpl.
  - unfold ret. f_equal. rewrite <- (with_cache_same st) at 1. f_equal.
    destruct (cache st) as [files|]; simpl; [|done].
    f_equal. symmetry. apply alter_id. intros x _. apply app_nil_r.
  - unfold bind. destruct c as [|b c]; simpl.
    + apply IH.
    + rewrite IH. f_equal. unfold with_cache. simpl. f_equal.
      destruct (cache st) as [files|]; simpl; [|done].
      f_equal. rewrite alter_alter_eq. apply alter_ext.
      intros x _. simpl. by rewrite <- app_assoc.
Qed.

(** What [_download_file] may touch: it logs its request, and at most the
    one cache entry that [file_path] names changes. *)
Lemma download_file_frame (file_path : string) (url : pyval) (st : state) :
  let st' := (_download_file env file_path url st).1 in
  self st' = self st
  ∧ log st' = log st ++ [SessionGet url]
  ∧ (is_Some (cache st') ↔ is_Some (cache st))
  ∧ (∀ n, file_at st' n ≠ file_at st n →
          entry_of_path (_cache_dir (self st)) file_path = Some n).
Proof.
  unfold _download_file, bind, session_get.
  destruct (respond_stream env (log st) url) as [res|e]; simpl; [|done].
  unfold open_wb. simpl.
  destruct (has_nul file_path); simpl; [done|].
  destruct (entry_of_path (_cache_dir (self st)) file_path) as [name|];
    simpl; [|done].
  destruct (cache st) as [files|] eqn:Hc; simpl.
  2:{ unfold file_at. simpl. rewrite Hc. done. }
  rewrite write_chunks_run. simpl.
  assert (∀ n, (alter (λ old, old ++ concat (chunks res)) name
                  (<[name:=[]]> files)) !! n ≠ files !! n → Some name = Some n)
    as Hframe.
  { intros n Hn. destruct (decide (name = n)) as [->|Hne]; [done|].
    rewrite lookup_alter_ne, lookup_insert_ne in Hn; done. }
  destruct (broken res); simpl; unfold file_at; simpl; rewrite Hc;
    (split; [done|]; split; [done|]; split; [by split; eauto|]; exact Hframe).
Qed.

(** On success the file holds exactly the bytes received. *)
Lemma download_file_ok (file_path name : string) (url : pyval) (st : state)
    (res : stream) (files : gmap string (list byte)) :
  respond_stream env (log st) url = Ok res →
  has_nul file_path = false →
  entry_of_path (_cache_dir (self st)) file_path = Some name →
  cache st = Some files →
  _download_file env file_path url st
  = (mk_state (self st) (Some (<[name := concat (chunks res)]> files))
       (log st ++ [SessionGet url]),
     match broken res with
     | Some e => Raise e
     | None => Ok tt
     end).
Proof.
  intros Hres Hnul Hentry Hc.
  unfold _download_file, bind, session_get. rewrite Hres.
  unfold open_wb. simpl. rewrite Hnul, Hentry, Hc.
  rewrite write_chunks_run. simpl.
  rewrite alter_insert_eq. simpl.
  destruct (broken res); reflexivity.
Qed.

(** One turn of the loop: an entry whose [largeUri] is present and false
    is passed over; one that offers a photo is handed to
    [_download_file]. *)
Lemma download_entry_skip (photo_data large : pyval) (st : state) :
  py_getitem photo_data "largeUri" = Ok large → truthy large = false →
  download_entry env photo_data st = (st, Ok tt).
Proof.
  intros Hl Ht. unfold download_entry, bind, lift. by rewrite Hl, Ht.
Qed.

Lemma download_entry_fetch (photo_data url i : pyval) (st : state) :
  has_photo photo_data url →
  py_getitem photo_data "individualId" = Ok i →
  download_entry env photo_data st
  = _download_file env
      (os_path_join (_cache_dir (self st)) (py_str i +:+ ".jpg")) url st.
Proof.
  intros [Hl Ht] Hi. unfold download_entry, bind, lift, get_state.
  by rewrite Hl, Ht, Hi.
Qed.

Lemma download_entry_frame (photo_data : pyval) (st : state) :
  let st' := (download_entry env photo_data st).1 in
  self st' = self st
  ∧ (∃ rest, log st' = log st ++ rest
             ∧ Forall (λ r, ∃ url, has_photo photo_data url ∧ r = SessionGet url)
                 rest)
  ∧ (is_Some (cache st') ↔ is_Some (cache st))
  ∧ (∀ n, file_at st' n ≠ file_at st n → photo_entry (self st) photo_data n).
Proof.
  assert (∀ s : state, self s = self s
            ∧ (∃ rest, log s = log s ++ rest
                ∧ Forall (λ r, ∃ url, has_photo photo_data url ∧ r = SessionGet url)
                    rest)
            ∧ (is_Some (cache s) ↔ is_Some (cache s))
            ∧ (∀ n, file_at s n ≠ file_at s n → photo_entry (self s) photo_data n))
    as Hsame.
  { intros s. split; [done|]. split; [|done].
    exists []. by rewrite app_nil_r. }
  destruct (py_getitem photo_data "largeUri") as [large|e] eqn:Hl.
  2:{ unfold download_entry, bind, lift. rewrite Hl. apply Hsame. }
  destruct (truthy large) eqn:Ht.
  2:{ rewrite (download_entry_skip _ _ _ Hl Ht). apply Hsame. }
  destruct (py_getitem photo_data "individualId") as [i|e] eqn:Hi.
  2:{ unfold download_entry, bind, lift. rewrite Hl, Ht, Hi. apply Hsame. }
  rewrite (download_entry_fetch _ large i st (conj Hl Ht) Hi).
  destruct (download_file_frame
              (os_path_join (_cache_dir (self st)) (py_str i +:+ ".jpg"))
              large st) as (Hself & Hlog & Hsome & Hfiles).
  simpl. split; [done|]. split.
  { eexists. split; [exact Hlog|]. constructor; [|done]. by exists large. }
  split; [done|].
  intros n Hn. exists large, i. split; [done|]. split; [done|]. by apply Hfiles.
Qed.

(** The whole loop over the metadata. *)
Lemma download_loop_frame (photos : list pyval) : ∀ st,
  let st' := (for_each (download_entry env) photos st).1 in
  self st' = self st
  ∧ (∃ rest, log st' = log st ++ rest
             ∧ Forall (λ r, ∃ photo_data url, photo_data ∈ photos
                            ∧ has_photo photo_data url ∧ r = SessionGet url)
                 rest)
  ∧ (is_Some (cache st') ↔ is_Some (cache st))
  ∧ (∀ n, file_at st' n ≠ file_at st n →
          ∃ photo_data, photo_data ∈ photos ∧ photo_entry (self st) photo_data n).
Proof.
  induction photos as [|p photos IH]; intros st; simpl.
  - split; [done|]. split; [|done]. exists []. by rewrite app_nil_r.
  - unfold bind.
    destruct (download_entry_frame p st) as (Hself & (r1 & Hlog & Hr1) & Hsome & Hfiles).
    destruct (download_entry env p st) as [st1 [[]|e]] eqn:Hrun; simpl in *.
    + destruct (IH st1) as (Hself' & (r2 & Hlog' & Hr2) & Hsome' & Hfiles').
      split; [congruence|]. split.
      { exists (r1 ++ r2). split.
        - rewrite Hlog', Hlog. by rewrite app_assoc.
        - apply Forall_app. split.
          + eapply Forall_impl; [exact Hr1|]. simpl.
            intros r (url & Hp & ->). exists p, url. split; [left|done].
          + eapply Forall_impl; [exact Hr2|]. simpl.
            intros r (q & url & Hq & Hp & ->). exists q, url.
            split; [by right|done]. }
      split; [by rewrite Hsome'|].
      intros n Hn.
      destruct (decide (file_at st1 n = file_at st n)) as [Heq|Hne].
      * rewrite <- Heq in Hn. destruct (Hfiles' n Hn) as (q & Hq & Hentry).
        exists q. split; [by right|]. by rewrite <- Hself.
      * exists p. split; [left|]. by apply Hfiles.
    + split; [done|]. split.
      { exists r1. split; [done|].
        eapply Forall_impl; [exact Hr1|]. simpl.
        intros r (url & Hp & ->). exists p, url. split; [left|done]. }
      split; [done|].
      intros n Hn. exists p. split; [left|]. by apply Hfiles.
Qed.

End download.

(** ** The registry *)

Lemma dict_get_set {V} (k id : string) (v : V) (d : list (string * V)) :
  dict_get k (dict_set id v d) = if String.eqb id k then Some v else dict_get k d.
Proof.
  induction d as [|[k' v'] d IH]; simpl.
  - done.
  - destruct (String.eqb_spec k' id) as [->|Hne]; simpl.
    + by destruct (String.eqb id k).
    + rewrite IH. destruct (String.eqb_spec k' k) as [->|Hk]; [|done].
      by destruct (String.eqb_spec id k) as [->|_].
Qed.

Lemma dict_set_keys {V} (id : string) (v w : V) (d : list (string * V)) :
  dict_get id d = Some w → map fst (dict_set id v d) = map fst d.
Proof.
  induction d as [|[k' v'] d IH]; simpl; [done|].
  destruct (String.eqb k' id); simpl; [done|].
  intros H. by rewrite (IH H).
Qed.

Lemma annotate_members_get (dir id k : string) (ms : list (string * Member.t)) :
  dict_get k (annotate_members dir id ms)
  = if String.eqb id k
    then Member.set_image_path (os_path_join dir (k +:+ ".jpg")) <$> dict_get k ms
    else dict_get k ms.
Proof.
  unfold annotate_members.
  destruct (dict_get id ms) as [m|] eqn:Hm.
  - rewrite dict_get_set.
    destruct (String.eqb_spec id k) as [->|_]; [by rewrite Hm | done].
  - destruct (String.eqb_spec id k) as [->|_]; [by rewrite Hm | done].
Qed.

Lemma annotate_members_keys (dir id : string) (ms : list (string * Member.t)) :
  map fst (annotate_members dir id ms) = map fst ms.
Proof.
  unfold annotate_members.
  destruct (dict_get id ms) as [m|] eqn:Hm; [|done].
  by eapply dict_set_keys.
Qed.

Lemma set_image_path_twice (p : string) (m : option Member.t) :
  Member.set_image_path p <$> (Member.set_image_path p <$> m)
  = Member.set_image_path p <$> m.
Proof. by destruct m. Qed.

Lemma annotate_all_get (dir : string) (ids : list string) (k : string) :
  ∀ ms : list (string * Member.t),
  dict_get k (fold_left (λ ms id, annotate_members dir id ms) ids ms)
  = if decide (k ∈ ids)
    then Member.set_image_path (os_path_join dir (k +:+ ".jpg")) <$> dict_get k ms
    else dict_get k ms.
Proof.
  induction ids as [|id ids IH]; intros ms; cbn [fold_left].
  - destruct (decide (k ∈ [])) as [Hn|_]; [|done]. by apply elem_of_nil in Hn.
  - rewrite IH, annotate_members_get.
    destruct (String.eqb_spec id k) as [->|Hne].
    + destruct (decide (k ∈ k :: ids)) as [_|Hn]; [|by destruct Hn; left].
      destruct (decide (k ∈ ids)); [apply set_image_path_twice | done].
    + destruct (decide (k ∈ ids)) as [Hin|Hnin].
      * destruct (decide (k ∈ id :: ids)) as [_|Hn]; [done|].
        destruct Hn. by right.
      * destruct (decide (k ∈ id :: ids)) as [Hn|_]; [|done].
        apply elem_of_cons in Hn as [?|?]; congruence.
Qed.

Lemma annotate_all_keys (dir : string) (ids : list string) :
  ∀ ms : list (string * Member.t),
  map fst (fold_left (λ ms id, annotate_members dir id ms) ids ms) = map fst ms.
Proof.
  induction ids as [|id ids IH]; intros ms; simpl; [done|].
  by rewrite IH, annotate_members_keys.
Qed.

Lemma annotate_run (id : string) (st : state) :
  annotate id st
  = (with_self (mk_fetcher (_output_dir (self st))
                  (annotate_members (_cache_dir (self st)) id (_members (self st)))
                  (_ids (self st))) st, Ok tt).
Proof.
  unfold annotate, bind, get_state, dict_contains, set_image_path,
    annotate_members, ret.
  cbv beta iota.
  destruct (dict_get id (_members (self st))) eqn:E; rewrite ?E; [done|].
  by destruct st as [[] ? ?].
Qed.

(** The last loop never raises; it rewrites the registry and nothing else. *)
Lemma annotate_loop_run (ids : list string) : ∀ st,
  for_each annotate ids st
  = (with_self (mk_fetcher (_output_dir (self st))
                  (fold_left (λ ms id, annotate_members (_cache_dir (self st)) id ms)
                     ids (_members (self st)))
                  (_ids (self st))) st, Ok tt).
Proof.
  induction ids as [|id ids IH]; intros st; simpl.
  - by destruct st as [[] ? ?].
  - unfold bind. rewrite annotate_run, IH. done.
Qed.


(** ** Paths *)

Lemma substring_all (x : string) : substring 0 (String.length x) x = x.
Proof. induction x as [|c x IH]; simpl; [done | by rewrite IH]. Qed.

Lemma drop_prefix_app (p x : string) : drop_prefix p (p +:+ x) = Some x.
Proof.
  unfold drop_prefix. rewrite startswith_app, length_app_str.
  replace (String.length p + String.length x - String.length p)
    with (String.length x) by lia.
  by rewrite substring_skip_app, substring_all.
Qed.

Lemma last_char_cache (pre : string) : last_char (pre +:+ "cache") = Some "e"%char.
Proof.
  induction pre as [|c pre IH]; [done|].
  simpl. simpl in IH. rewrite IH. by destruct pre.
Qed.

Lemma cache_dir_shape (f : fetcher) : ∃ pre, _cache_dir f = pre +:+ "cache".
Proof.
  unfold _cache_dir, os_path_join. simpl startswith. cbv iota.
  destruct (String.eqb (_output_dir f) "" || endswith_slash (_output_dir f)).
  - by eexists.
  - exists (_output_dir f +:+ "/"). by rewrite app_assoc_str.
Qed.

(** Below the cache directory, [os.path.join] puts one slash between the
    directory and a relative name. *)
Lemma cache_dir_join (f : fetcher) (x : string) :
  startswith "/" x = false →
  os_path_join (_cache_dir f) x = (_cache_dir f +:+ "/") +:+ x.
Proof.
  intros Hx. unfold os_path_join. rewrite Hx.
  destruct (cache_dir_shape f) as (pre & ->).
  unfold endswith_slash. rewrite last_char_cache.
  assert (String.eqb (pre +:+ "cache") "" = false) as ->.
  { apply String.eqb_neq. by destruct pre. }
  simpl. by rewrite (app_assoc_str _ "/" x).
Qed.

Lemma slash_free_app (a b : string) :
  contains "/" a = false → contains "/" b = false → contains "/" (a +:+ b) = false.
Proof.
  intros Ha Hb. induction a as [|c a IH]; [done|].
  cbn [contains] in Ha. apply orb_false_iff in Ha as [H1 H2].
  change (String c a +:+ b) with (String c (a +:+ b)).
  cbn [contains]. rewrite (IH H2), orb_false_r.
  simpl in *. by destruct (Ascii.eqb "/" c).
Qed.

Lemma slash_free_start (a b : string) :
  contains "/" a = false → startswith "/" b = false →
  startswith "/" (a +:+ b) = false.
Proof.
  destruct a as [|c a]; [done|]. intros Ha _.
  cbn [contains] in Ha. apply orb_false_iff in Ha as [H1 _].
  simpl in *. by destruct (Ascii.eqb "/" c).
Qed.

(** For an identifier without a slash, the image path is the entry
    [id.jpg] of the cache directory. *)
Lemma entry_of_image_path (f : fetcher) (id : string) :
  contains "/" id = false →
  entry_of_path (_cache_dir f) (os_path_join (_cache_dir f) (id +:+ ".jpg"))
  = Some (id +:+ ".jpg").
Proof.
  intros Hid.
  rewrite cache_dir_join by (by apply slash_free_start).
  unfold entry_of_path. rewrite drop_prefix_app.
  rewrite slash_free_app by done.
  assert (∀ y, String.length y < 4 → String.eqb (id +:+ ".jpg") y = false) as Hlen.
  { intros y Hy. apply String.eqb_neq. intros E.
    apply (f_equal String.length) in E. rewrite length_app_str in E.
    simpl in E. lia. }
  rewrite !Hlen by (simpl; lia). done.
Qed.

(** ** [_download_images] and [load_member_images] *)

Section reconcile.
Context (env : environment).

Lemma download_images_run (override : bool) (st : state)
    (files : gmap string (list byte)) :
  cache st = Some files →
  has_nul (_cache_dir (self st)) = false →
  _download_images env override st
  = let downloaded :=
      if override then [] else downloaded_ids (dir_order env files) in
    let missing_ids := set_order env (_ids (self st)) downloaded in
    let st1 := with_log (log st ++ [photo_url_request missing_ids]) st in
    match respond_json env (log st) ["photo-url"; "individual"]
            (Some (py_join "," missing_ids)) with
    | Ok data =>
        match py_iter data with
        | Ok photos => for_each (download_entry env) photos st1
        | Raise e => (st1, Raise e)
        end
    | Raise e => (st1, Raise e)
    end.
Proof.
  intros Hc Hnul.
  unfold _download_images, bind, get_state, os_listdir, in_cache_dir,
    client_get, lift, ret.
  cbv beta iota.
  destruct override; cbn [negb]; cbv beta iota.
  - destruct (respond_json env (log st) _ _) as [data|e]; [|done].
    by destruct (py_iter data).
  - rewrite String.eqb_refl, Hnul, Hc.
    destruct (respond_json env (log st) _ _) as [data|e]; [|done].
    by destruct (py_iter data).
Qed.

(** [_download_images] leaves the object alone, keeps the directory, and
    its first request is the one for the missing identifiers; all later
    requests fetch photos. *)
Lemma download_images_frame (override : bool) (st : state)
    (files : gmap string (list byte)) :
  cache st = Some files →
  has_nul (_cache_dir (self st)) = false →
  let st' := (_download_images env override st).1 in
  let downloaded :=
    if override then [] else downloaded_ids (dir_order env files) in
  self st' = self st
  ∧ is_Some (cache st')
  ∧ ∃ rest,
      log st'
      = log st ++ photo_url_request (set_order env (_ids (self st)) downloaded)
                  :: rest
      ∧ Forall (λ r, is_session_get r = true) rest.
Proof.
  intros Hc Hnul. rewrite (download_images_run override st files Hc Hnul).
  cbv zeta.
  set (req := photo_url_request _).
  assert (is_Some (cache (with_log (log st ++ [req]) st))) as Hsome
    by (simpl; rewrite Hc; eauto).
  assert (∃ rest, log (with_log (log st ++ [req]) st) = log st ++ req :: rest
                  ∧ Forall (λ r, is_session_get r = true) rest) as Hnone
    by (exists []; done).
  destruct (respond_json env (log st) _ _) as [data|e]; [|done].
  destruct (py_iter data) as [photos|e]; [|done].
  destruct (download_loop_frame env photos (with_log (log st ++ [req]) st))
    as (Hself & (rest & Hlog & Hrest) & Hcache & _).
  split; [done|]. split; [by apply Hcache|].
  exists rest. split.
  - rewrite Hlog. simpl. by rewrite <- app_assoc.
  - eapply Forall_impl; [exact Hrest|]. simpl. by intros r (? & ? & _ & _ & ->).
Qed.

Lemma cache_ensure_cache (st : state) :
  cache (ensure_cache st) = Some (default ∅ (cache st)).
Proof. unfold ensure_cache. by destruct (cache st) eqn:E. Qed.

(** [load_member_images], step by step. *)
Lemma load_member_images_run (download override : bool) (st : state) :
  has_nul (_cache_dir (self st)) = false →
  load_member_images env download override st
  = match (if download then _download_images env override (ensure_cache st)
           else (ensure_cache st, Ok tt)) with
    | (st2, Ok _) =>
        match cache st2 with
        | Some files =>
            for_each annotate (downloaded_ids (dir_order env files)) st2
        | None => (st2, Raise FileNotFoundError)
        end
    | (st2, Raise e) => (st2, Raise e)
    end.
Proof.
  intros Hnul.
  assert (self (ensure_cache st) = self st) as Hself0
    by (unfold ensure_cache; by destruct (cache st)).
  assert (load_member_images env download override st
          = bind (if download then _download_images env override else ret tt)
              (λ _, bind (os_listdir env (_cache_dir (self st)))
                      (λ entries, for_each annotate (downloaded_ids entries)))
              (ensure_cache st)) as ->.
  { unfold load_member_images, bind at 1 2 3, get_state, os_path_exists,
      in_cache_dir.
    rewrite String.eqb_refl, Hnul. unfold ensure_cache.
    destruct (cache st) as [files|] eqn:Hc; simpl.
    - unfold ret. done.
    - unfold os_makedirs, in_cache_dir. rewrite String.eqb_refl, Hnul, Hc. done. }
  unfold bind at 1.
  assert (∀ st2, self st2 = self st →
            bind (os_listdir env (_cache_dir (self st)))
              (λ entries, for_each annotate (downloaded_ids entries)) st2
            = match cache st2 with
              | Some files =>
                  for_each annotate (downloaded_ids (dir_order env files)) st2
              | None => (st2, Raise FileNotFoundError)
              end) as Hlist.
  { intros st2 Hs. unfold bind, os_listdir, in_cache_dir.
    rewrite Hs, String.eqb_refl, Hnul. by destruct (cache st2). }
  destruct download.
  - destruct (download_images_frame override (ensure_cache st) _
                (cache_ensure_cache st)) as (Hself & _).
    { by rewrite Hself0. }
    destruct (_download_images env override (ensure_cache st)) as [st2 [[]|e]];
      [|done].
    apply Hlist. simpl in Hself. congruence.
  - unfold ret. by apply Hlist.
Qed.

(** The requests of a run with [download = True]. *)
Lemma load_member_images_log (override : bool) (st : state) :
  has_nul (_cache_dir (self st)) = false →
  let downloaded :=
    if override then []
    else downloaded_ids (dir_order env (default ∅ (cache st))) in
  ∃ rest,
    log (load_member_images env true override st).1
    = log st ++ photo_url_request (set_order env (_ids (self st)) downloaded)
                :: rest
    ∧ Forall (λ r, is_session_get r = true) rest.
Proof.
  intros Hnul. rewrite load_member_images_run by done.
  assert (self (ensure_cache st) = self st ∧ log (ensure_cache st) = log st)
    as [Hself0 Hlog0] by (unfold ensure_cache; by destruct (cache st)).
  destruct (download_images_frame override (ensure_cache st) _
              (cache_ensure_cache st)) as (Hself & Hsome & rest & Hlog & Hrest).
  { by rewrite Hself0. }
  cbv zeta in *. rewrite Hself0, Hlog0 in Hlog.
  exists rest. split; [|done].
  destruct (_download_images env override (ensure_cache st)) as [st2 [[]|e]];
    simpl in *; [|done].
  destruct (cache st2); [|done].
  by rewrite annotate_loop_run.
Qed.

(** With nothing missing and an empty answer, the run makes its one
    request and leaves the cache as it is. *)
Lemma load_member_images_nothing_missing (st : state)
    (files : gmap string (list byte)) :
  has_nul (_cache_dir (self st)) = false →
  cache st = Some files →
  set_order env (_ids (self st)) (downloaded_ids (dir_order env files)) = [] →
  respond_json env (log st) ["photo-url"; "individual"] (Some "")
  = Ok (PList []) →
  let st' := (load_member_images env true false st).1 in
  log st' = log st ++ [photo_url_request []] ∧ cache st' = cache st.
Proof.
  intros Hnul Hc Hnone Hresp.
  rewrite load_member_images_run by done.
  assert (ensure_cache st = st) as -> by (unfold ensure_cache; by rewrite Hc).
  rewrite (download_images_run false st files Hc Hnul). cbv zeta.
  rewrite Hnone. change (py_join "," []) with EmptyString. rewrite Hresp.
  simpl. rewrite Hc. rewrite annotate_loop_run. simpl. by rewrite Hc.
Qed.

Lemma load_member_images_nul (download override : bool) (st : state) :
  has_nul (_cache_dir (self st)) = true →
  load_member_images env download override st = (st, Raise ValueError).
Proof.
  intros Hnul.
  unfold load_member_images, bind, get_state, os_path_exists, os_makedirs,
    in_cache_dir.
  rewrite !String.eqb_refl, !Hnul. cbn [negb andb]. cbv beta.
  by rewrite String.eqb_refl.
Qed.

End reconcile.

(** ** The claims about the download pass *)

Lemma missing_set_override (ids : list string) :
  missing_set ids [] = list_to_set ids.
Proof.
  unfold missing_set. rewrite list_to_set_nil. apply difference_empty_L.
Qed.

Lemma missing_set_ext (ids ids' cached cached' : list string) :
  (∀ x, x ∈ ids ↔ x ∈ ids') → (∀ x, x ∈ cached ↔ x ∈ cached') →
  missing_set ids cached = missing_set ids' cached'.
Proof.
  unfold missing_set. intros Hi Hc. apply set_eq. intros x.
  rewrite !elem_of_difference, !elem_of_list_to_set. by rewrite Hi, Hc.
Qed.

(** C1: with [download] set, the missing set is the expected identifiers
    minus the cached ones, each cached one obtained from a file name of the
    listing by [replace('.jpg', '')], which for a name [id.jpg] is [id];
    with [override] it is all expected identifiers.  The first request of the run is the batched photo-url
    request, for the identifiers of that set joined by commas, each once;
    every later request fetches a photo.  With "1.jpg" alone in the cache
    and identifiers "1" and "2" expected, the request is for "2". *)
Theorem reconcile_requests_missing_set (env : environment) (st : state)
    (override : bool)
    (Hnul : has_nul (_cache_dir (self st)) = false) :
  let files := default ∅ (cache st) in
  let cached := downloaded_ids (dir_order env files) in
  let missing : gset string :=
    if override then list_to_set (_ids (self st))
    else list_to_set (_ids (self st)) ∖ list_to_set cached in
  ∃ ids rest,
    ids ≡ₚ elements missing
    ∧ log (load_member_images env true override st).1
      = log st ++ photo_url_request ids :: rest
    ∧ Forall (λ r, is_session_get r = true) rest
    ∧ (∀ id, contains ".jpg" id = false → cached_id (id +:+ ".jpg") = id)
    ∧ (override = false → dom files = {["1.jpg"]} →
       _ids (self st) = ["1"; "2"] →
       photo_url_request ids = Get ["photo-url"; "individual"] (Some "2")).
Proof.
  cbv zeta.
  destruct (load_member_images_log env override st Hnul) as (rest & Hlog & Hrest).
  cbv zeta in Hlog.
  eexists _, rest.
  split; [|split; [exact Hlog|split; [exact Hrest|split]]].
  - rewrite set_order_perm. destruct override; [|done].
    by rewrite missing_set_override.
  - intros id Hid. by apply py_replace_jpg_suffix.
  - intros -> Hdom Hids.
    pose proof (dir_order_perm env (default ∅ (cache st))) as Hdir.
    rewrite Hdom, elements_singleton in Hdir.
    apply Permutation_singleton_r in Hdir. rewrite Hdir, Hids.
    pose proof (set_order_perm env ["1"; "2"] (downloaded_ids ["1.jpg"])) as Hset.
    assert (missing_set ["1"; "2"] (downloaded_ids ["1.jpg"]) = {["2"]}) as Hmiss
      by (vm_compute; reflexivity).
    rewrite Hmiss, elements_singleton in Hset.
    apply Permutation_singleton_r in Hset. by rewrite Hset.
Qed.

Lemma reconcile_requests_missing_set_witness :
  ∃ rest,
    log (load_member_images (sample_env sample_payload) true false
           one_cached_state).1
    = Get ["photo-url"; "individual"] (Some "2") :: rest.
Proof.
  destruct (reconcile_requests_missing_set (sample_env sample_payload)
              one_cached_state false eq_refl)
    as (ids & rest & _ & Hlog & _ & _ & Hreq).
  exists rest. rewrite Hlog. simpl. f_equal.
  apply Hreq; [reflexivity | apply dom_singleton_L | reflexivity].
Defined.

(** C3 (as stated, fails): after a first run that cached every expected
    photo, the second run still makes a network request: the photo-url
    request, for an empty list of identifiers. *)
Lemma second_run_requests_again :
  missing_set (_ids (self after_first_run))
    (downloaded_ids (elements (dom (default ∅ (cache after_first_run))))) = ∅
  ∧ log after_second_run
    = log after_first_run ++ [Get ["photo-url"; "individual"] (Some "")]
  ∧ log after_second_run ≠ log after_first_run.
Proof.
  split; [|split].
  - vm_compute. reflexivity.
  - vm_compute. reflexivity.
  - vm_compute. discriminate.
Qed.

(** The requests of the download pass, with where each comes from: first
    the photo-url request, then only requests for photos that its answer
    offers. *)
Lemma download_images_requests (env : environment) (override : bool)
    (st : state) (files : gmap string (list byte)) :
  cache st = Some files →
  has_nul (_cache_dir (self st)) = false →
  let downloaded :=
    if override then [] else downloaded_ids (dir_order env files) in
  let ids := set_order env (_ids (self st)) downloaded in
  ∃ rest,
    log (_download_images env override st).1
    = log st ++ photo_url_request ids :: rest
    ∧ Forall (offered_by (respond_json env (log st) ["photo-url"; "individual"]
                            (Some (py_join "," ids)))) rest.
Proof.
  intros Hc Hnul. rewrite (download_images_run env override st files Hc Hnul).
  cbv zeta. set (ids := set_order env _ _).
  destruct (respond_json env (log st) _ _) as [data|e] eqn:Hresp;
    [|by exists []].
  destruct (py_iter data) as [photos|e] eqn:Hiter; [|by exists []].
  destruct (download_loop_frame env photos
              (with_log (log st ++ [photo_url_request ids]) st))
    as (_ & (rest & Hlog & Hrest) & _).
  exists rest. split.
  - rewrite Hlog. simpl. by rewrite <- app_assoc.
  - eapply Forall_impl; [exact Hrest|]. simpl.
    intros r (photo_data & url & Hin & Hphoto & ->).
    by exists data, photos, photo_data, url.
Qed.

Lemma load_member_images_requests (env : environment) (override : bool)
    (st : state) :
  has_nul (_cache_dir (self st)) = false →
  let downloaded :=
    if override then []
    else downloaded_ids (dir_order env (default ∅ (cache st))) in
  let ids := set_order env (_ids (self st)) downloaded in
  ∃ rest,
    log (load_member_images env true override st).1
    = log st ++ photo_url_request ids :: rest
    ∧ Forall (offered_by (respond_json env (log st) ["photo-url"; "individual"]
                            (Some (py_join "," ids)))) rest.
Proof.
  intros Hnul. rewrite load_member_images_run by done.
  assert (self (ensure_cache st) = self st ∧ log (ensure_cache st) = log st)
    as [Hself0 Hlog0] by (unfold ensure_cache; by destruct (cache st)).
  destruct (download_images_requests env override (ensure_cache st) _
              (cache_ensure_cache st)) as (rest & Hlog & Hrest).
  { by rewrite Hself0. }
  destruct (download_images_frame env override (ensure_cache st) _
              (cache_ensure_cache st)) as (_ & Hsome & _).
  { by rewrite Hself0. }
  cbv zeta in *. rewrite Hself0, Hlog0 in Hlog, Hrest.
  exists rest. split; [|done].
  destruct (_download_images env override (ensure_cache st)) as [st2 [[]|e]];
    simpl in *; [|done].
  destruct (cache st2); [|done].
  by rewrite annotate_loop_run.
Qed.

(** C3 (amended): a run with [download] set and [override] clear, started
    when every expected identifier is already cached, makes exactly one
    photo-url request, for the empty list of identifiers; every further
    request is the download of a photo that an entry of the answer to
    that request offers (so there is none when the request raises), and
    if the answer is the empty list there is none and the cache is left
    as it was. *)
Theorem reconcile_nothing_missing (env : environment) (st : state)
    (files : gmap string (list byte))
    (Hnul : has_nul (_cache_dir (self st)) = false)
    (Hcache : cache st = Some files)
    (Hall : ∀ id, id ∈ _ids (self st) →
                  id ∈ downloaded_ids (dir_order env files)) :
  let st' := (load_member_images env true false st).1 in
  let answer :=
    respond_json env (log st) ["photo-url"; "individual"] (Some "") in
  (∃ rest, log st' = log st ++ Get ["photo-url"; "individual"] (Some "") :: rest
           ∧ Forall (offered_by answer) rest
           ∧ Forall (λ r, is_session_get r = true) rest
           ∧ (∀ e, answer = Raise e → rest = []))
  ∧ (answer = Ok (PList []) →
     log st' = log st ++ [Get ["photo-url"; "individual"] (Some "")]
     ∧ cache st' = cache st).
Proof.
  assert (set_order env (_ids (self st)) (downloaded_ids (dir_order env files))
          = []) as Hnone.
  { apply Permutation_nil_r. rewrite set_order_perm.
    assert (missing_set (_ids (self st)) (downloaded_ids (dir_order env files))
            = ∅) as ->.
    { unfold missing_set. apply set_eq. intros x.
      rewrite elem_of_difference, !elem_of_list_to_set. split.
      - intros [Hin Hout]. destruct Hout. by apply Hall.
      - intros Hx. by apply elem_of_empty in Hx. }
    by rewrite elements_empty. }
  cbv zeta. split.
  - destruct (load_member_images_requests env false st Hnul)
      as (rest & Hlog & Hrest).
    cbv zeta in Hlog, Hrest. rewrite Hcache in Hlog, Hrest.
    simpl in Hlog, Hrest. rewrite Hnone in Hlog, Hrest.
    change (py_join "," []) with EmptyString in Hrest.
    exists rest. split; [done|]. split; [done|]. split.
    + eapply Forall_impl; [exact Hrest|]. simpl.
      by intros r (? & ? & ? & ? & _ & _ & _ & _ & ->).
    + intros e He. destruct Hrest as [|r rest Hr _]; [done|].
      destruct Hr as (? & ? & ? & ? & Hok & _). congruence.
  - intros Hresp.
    by apply (load_member_images_nothing_missing env st files).
Qed.

Lemma reconcile_nothing_missing_witness :
  log (load_member_images (sample_env sample_payload) true false
         all_cached_state).1
  = [Get ["photo-url"; "individual"] (Some "")]
  ∧ cache (load_member_images (sample_env sample_payload) true false
             all_cached_state).1
    = cache all_cached_state.
Proof.
  apply (reconcile_nothing_missing (sample_env sample_payload)
           all_cached_state {["1.jpg" := []]}).
  - reflexivity.
  - reflexivity.
  - intros id Hid. apply list_elem_of_singleton in Hid as ->.
    vm_compute. left.
  - reflexivity.
Defined.

(** C10: the missing set that [_download_images] computes, and with it the
    photo-url request it makes, depend only on which identifiers are
    expected and which are cached, not on how often or in what order they
    are listed.  For two states whose expected lists have the same members
    and whose listings derive the same cached identifiers, the missing
    sets are equal, and the first request each run logs is the photo-url
    request for a duplicate-free enumeration of that one set (the order of
    a set's iteration is not fixed, so the two enumerations agree up to
    order); all later requests fetch photos.  The same holds between a
    state and that state with its expected list deduplicated. *)
Theorem missing_set_ignores_duplicates (env : environment) (st st' : state)
    (override : bool) (files files' : gmap string (list byte))
    (Hcache : cache st = Some files)
    (Hcache' : cache st' = Some files')
    (Hnul : has_nul (_cache_dir (self st)) = false)
    (Hnul' : has_nul (_cache_dir (self st')) = false)
    (Hids : ∀ x, x ∈ _ids (self st) ↔ x ∈ _ids (self st'))
    (Hcached : ∀ x, x ∈ downloaded_ids (dir_order env files)
                    ↔ x ∈ downloaded_ids (dir_order env files')) :
  let cached := if override then [] else downloaded_ids (dir_order env files) in
  let cached' := if override then [] else downloaded_ids (dir_order env files') in
  let requested := set_order env (_ids (self st)) cached in
  let requested' := set_order env (_ids (self st')) cached' in
  let deduplicated := (set_ids (remove_dups (_ids (self st))) st).1 in
  let requested'' := set_order env (_ids (self deduplicated)) cached in
  missing_set (_ids (self st)) cached = missing_set (_ids (self st')) cached'
  ∧ (∃ rest, log (_download_images env override st).1
             = log st ++ photo_url_request requested :: rest
             ∧ Forall (λ r, is_session_get r = true) rest)
  ∧ (∃ rest', log (_download_images env override st').1
              = log st' ++ photo_url_request requested' :: rest'
              ∧ Forall (λ r, is_session_get r = true) rest')
  ∧ requested ≡ₚ elements (missing_set (_ids (self st)) cached)
  ∧ requested' ≡ₚ requested
  ∧ NoDup requested ∧ NoDup requested'
  ∧ _ids (self deduplicated) = remove_dups (_ids (self st))
  ∧ (∃ rest'', log (_download_images env override deduplicated).1
               = log st ++ photo_url_request requested'' :: rest''
               ∧ Forall (λ r, is_session_get r = true) rest'')
  ∧ requested'' ≡ₚ requested.
Proof.
  cbv zeta.
  set (cached := if override then [] else downloaded_ids (dir_order env files)).
  set (cached' := if override then [] else downloaded_ids (dir_order env files')).
  assert (∀ x, x ∈ cached ↔ x ∈ cached') as Hc
    by (subst cached cached'; by destruct override).
  assert (missing_set (_ids (self st)) cached
          = missing_set (_ids (self st')) cached') as E
    by (by apply missing_set_ext).
  assert (missing_set (remove_dups (_ids (self st))) cached
          = missing_set (_ids (self st)) cached) as E'.
  { apply missing_set_ext; [|done]. intros x. apply elem_of_remove_dups. }
  assert (∀ s fs, cache s = Some fs → has_nul (_cache_dir (self s)) = false →
            ∃ rest, log (_download_images env override s).1
                    = log s ++ photo_url_request
                                 (set_order env (_ids (self s))
                                    (if override then []
                                     else downloaded_ids (dir_order env fs)))
                               :: rest
                    ∧ Forall (λ r, is_session_get r = true) rest) as Hrun.
  { intros s fs Hs Hn.
    by destruct (download_images_frame env override s fs Hs Hn) as (_ & _ & ?). }
  split; [done|].
  split; [by apply (Hrun st files)|].
  split; [by apply (Hrun st' files')|].
  split; [apply set_order_perm|].
  split; [by rewrite !set_order_perm, E|].
  split; [rewrite set_order_perm; apply NoDup_elements|].
  split; [rewrite set_order_perm; apply NoDup_elements|].
  split; [done|].
  split;
    [exact (Hrun (set_ids (remove_dups (_ids (self st))) st).1 files Hcache Hnul)|].
  simpl. by rewrite !set_order_perm, E'.
Qed.

Lemma missing_set_ignores_duplicates_witness :
  set_order (sample_env sample_payload) ["2"; "1"; "2"; "1"]
    (downloaded_ids (dir_order (sample_env sample_payload) {["1.jpg" := []]}))
  ≡ₚ set_order (sample_env sample_payload) ["1"; "2"]
       (downloaded_ids (dir_order (sample_env sample_payload) {["1.jpg" := []]})).
Proof.
  apply (missing_set_ignores_duplicates (sample_env sample_payload)
           one_cached_state duplicate_ids_state false
           {["1.jpg" := []]} {["1.jpg" := []]}
           eq_refl eq_refl eq_refl eq_refl).
  - intros x. simpl. rewrite !elem_of_cons. tauto.
  - done.
Defined.

(** C7 (as stated, fails): an entry from which the key [largeUri] is
    missing is not passed over; the loop stops with [KeyError]. *)
Lemma download_entry_missing_uri :
  py_getitem entry_without_uri "largeUri" = Raise KeyError
  ∧ download_entry (sample_env sample_payload) entry_without_uri one_cached_state
    = (one_cached_state, Raise KeyError).
Proof. split; reflexivity. Qed.

(** C7 (amended): an entry whose [largeUri] is present and false (null, the
    empty string) is passed over: no exception, no request, no file
    written.  An entry that offers a photo is downloaded to
    [os.path.join(cache_dir, str(id) + '.jpg')].  Over the whole loop every
    photo request is for the [largeUri] of an entry that offers one, and
    every cache file that changes is the file of such an entry. *)
Theorem download_loop_skips_empty_uri (env : environment) (photos : list pyval)
    (st : state) :
  (∀ photo_data large s,
     py_getitem photo_data "largeUri" = Ok large → truthy large = false →
     download_entry env photo_data s = (s, Ok tt))
  ∧ truthy PNone = false ∧ truthy (PStr EmptyString) = false
  ∧ (∀ photo_data url i s,
       has_photo photo_data url → py_getitem photo_data "individualId" = Ok i →
       download_entry env photo_data s
       = _download_file env
           (os_path_join (_cache_dir (self s)) (py_str i +:+ ".jpg")) url s)
  ∧ (let st' := (for_each (download_entry env) photos st).1 in
     (∃ rest, log st' = log st ++ rest
              ∧ Forall (λ r, ∃ photo_data url, photo_data ∈ photos
                             ∧ has_photo photo_data url ∧ r = SessionGet url)
                  rest)
     ∧ (∀ n, file_at st' n ≠ file_at st n →
             ∃ photo_data, photo_data ∈ photos
                           ∧ photo_entry (self st) photo_data n)).
Proof.
  split; [intros; by eapply download_entry_skip|].
  split; [done|]. split; [done|].
  split; [intros; by apply download_entry_fetch|].
  destruct (download_loop_frame env photos st) as (_ & Hlog & _ & Hfiles).
  by split.
Qed.

Lemma download_loop_skips_empty_uri_witness :
  download_entry (sample_env sample_payload)
    (PDict [("individualId", PInt 3); ("largeUri", PStr "")]) one_cached_state
  = (one_cached_state, Ok tt).
Proof.
  apply (proj1 (download_loop_skips_empty_uri (sample_env sample_payload) []
                  one_cached_state)
           _ (PStr "")); reflexivity.
Defined.

(** ** The claims about the registry *)

(** C4 (as stated, fails): the cache holds a file called "1" and none called
    "1.jpg".  The identifier derived from the listing is "1", so Member "1"
    gets an image path, and that path names no file of the cache. *)
Lemma image_path_without_file :
  downloaded_ids (elements (dom (default ∅ (cache after_stray_file)))) = ["1"]
  ∧ Member.image_path <$> dict_get "1" (_members (self after_stray_file))
    = Some (Some "/out/cache/1.jpg")
  ∧ entry_of_path "/out/cache" "/out/cache/1.jpg" = Some "1.jpg"
  ∧ file_at after_stray_file "1.jpg" = None.
Proof. repeat split; vm_compute; reflexivity. Qed.

(** C4 (amended): [load_member_images] raises only when the directory path
    cannot be represented or when the download pass raises; cached
    identifiers without a Member raise nothing.  After a run that returns,
    with the identifiers derived from the final listing by
    [replace('.jpg', '')]: the registry has the same keys; a Member whose
    key is among them has [image_path] set to
    [os.path.join(cache_dir, key + '.jpg')], which is not empty; every other
    Member is as it was.  When the key has neither a slash nor ".jpg" in it
    and the listing holds the very entry [key.jpg], the key is among the
    derived identifiers and the path names that entry. *)
Theorem load_member_images_annotates (env : environment) (st : state)
    (download override : bool) :
  (∀ e, (load_member_images env download override st).2 = Raise e →
        (has_nul (_cache_dir (self st)) = true ∧ e = ValueError)
        ∨ (download = true
           ∧ (_download_images env override (ensure_cache st)).2 = Raise e))
  ∧ (∀ st', load_member_images env download override st = (st', Ok tt) →
       ∃ files, cache st' = Some files ∧
         let cached := downloaded_ids (dir_order env files) in
         let path id := os_path_join (_cache_dir (self st)) (id +:+ ".jpg") in
         map fst (_members (self st')) = map fst (_members (self st))
         ∧ (∀ id, id ∈ cached →
                  dict_get id (_members (self st'))
                  = Member.set_image_path (path id)
                      <$> dict_get id (_members (self st)))
         ∧ (∀ id, id ∉ cached →
                  dict_get id (_members (self st'))
                  = dict_get id (_members (self st)))
         ∧ (∀ id, path id ≠ EmptyString)
         ∧ (∀ id, contains "/" id = false → contains ".jpg" id = false →
                  (id +:+ ".jpg") ∈ dom files →
                  id ∈ cached
                  ∧ entry_of_path (_cache_dir (self st)) (path id)
                    = Some (id +:+ ".jpg"))).
Proof.
  destruct (has_nul (_cache_dir (self st))) eqn:Hnul.
  { rewrite load_member_images_nul by done. split.
    - intros e [= <-]. by left.
    - intros st' [=]. }
  rewrite load_member_images_run by done.
  assert (self (ensure_cache st) = self st) as Hself0
    by (unfold ensure_cache; by destruct (cache st)).
  assert (self (if download then _download_images env override (ensure_cache st)
                else (ensure_cache st, Ok tt)).1 = self st
          ∧ is_Some (cache (if download
                            then _download_images env override (ensure_cache st)
                            else (ensure_cache st, Ok tt)).1)) as [Hself Hsome].
  { destruct download; simpl.
    - destruct (download_images_frame env override (ensure_cache st) _
                  (cache_ensure_cache st)) as (Hs & Hc & _); [by rewrite Hself0|].
      split; [congruence | done].
    - split; [done|]. rewrite cache_ensure_cache. eauto. }
  split.
  - intros e He. right.
    destruct (if download then _ else _) as [st2 [[]|e2]] eqn:Hd; simpl in *.
    + destruct Hsome as [files Hc]. rewrite Hc in He.
      by rewrite annotate_loop_run in He.
    + destruct download; [|done]. split; [done|]. rewrite Hd. simpl. congruence.
  - intros st' Hrun.
    destruct (if download then _ else _) as [st2 [[]|e2]] eqn:Hd; [|done].
    simpl in Hself.
    destruct (cache st2) as [files|] eqn:Hc; [|done].
    rewrite annotate_loop_run in Hrun. injection Hrun as <-.
    exists files. split; [done|]. cbv zeta. simpl. rewrite !Hself.
    split; [apply annotate_all_keys|].
    split.
    { intros id Hin. rewrite annotate_all_get. by rewrite decide_True. }
    split.
    { intros id Hout. rewrite annotate_all_get. by rewrite decide_False. }
    split.
    { intros id E. apply (f_equal String.length) in E.
      destruct (decide (startswith "/" (id +:+ ".jpg") = true)) as [Hs|Hs].
      - unfold os_path_join in E. rewrite Hs, length_app_str in E. simpl in E. lia.
      - apply not_true_is_false in Hs. rewrite cache_dir_join in E by done.
        rewrite !length_app_str in E. simpl in E. lia. }
    intros id Hslash Hjpg Hin. split.
    + unfold downloaded_ids. apply list_elem_of_fmap.
      exists (id +:+ ".jpg"). split.
      * unfold cached_id. by rewrite py_replace_jpg_suffix.
      * rewrite dir_order_perm. by apply elem_of_elements.
    + by apply entry_of_image_path.
Qed.

Lemma load_member_images_annotates_witness :
  ∃ files, cache after_stray_file = Some files
           ∧ map fst (_members (self after_stray_file)) = ["1"].
Proof.
  destruct (proj2 (load_member_images_annotates (sample_env sample_payload)
                     stray_file_state false false)
              after_stray_file eq_refl)
    as (files & Hc & Hkeys & _).
  exists files. split; [exact Hc | exact Hkeys].
Defined.

(** C9 (as stated, fails): "1.jpg.bak" does not end in ".jpg", and the
    identifier derived from it is "1.bak", not the full name. *)
Lemma cached_id_inner_extension :
  endswith ".jpg" "1.jpg.bak" = false
  ∧ cached_id "1.jpg.bak" = "1.bak"
  ∧ cached_id "1.jpg.bak" ≠ "1.jpg.bak".
Proof. split; [reflexivity|]. split; [reflexivity | discriminate]. Qed.

(** C9 (amended): both listings derive an identifier from a file name by
    removing every occurrence of ".jpg", found from left to right, and not
    only a trailing one: up to the first occurrence the name is kept, the
    occurrence is dropped, and the rest is treated likewise.  A name in
    which ".jpg" does not occur at all is a cached identifier equal to the
    full name. *)
Theorem cached_id_removes_every_jpg (entries : list string) :
  downloaded_ids entries = map (py_replace ".jpg" "") entries
  ∧ (∀ a b, contains ".jpg" a = false →
            cached_id (a +:+ ".jpg" +:+ b) = a +:+ cached_id b)
  ∧ (∀ name, contains ".jpg" name = false → cached_id name = name)
  ∧ cached_id "1.jpg.jpg" = "1"
  ∧ cached_id "notes.txt" = "notes.txt".
Proof.
  split; [done|]. split; [apply py_replace_jpg_leftmost|].
  split; [intros; by apply py_replace_absent | done].
Qed.

Lemma cached_id_removes_every_jpg_witness :
  cached_id ("photo" +:+ ".jpg" +:+ ".bak") = "photo" +:+ cached_id ".bak"
  ∧ cached_id "README" = "README".
Proof.
  split.
  - apply (proj1 (proj2 (cached_id_removes_every_jpg []))). reflexivity.
  - apply (proj1 (proj2 (proj2 (cached_id_removes_every_jpg [])))). reflexivity.
Defined.

(** ** The calling index *)

(** An identifier that is a JSON number is filed under the number; looking
    up its decimal string finds nothing. *)
Lemma index_callings_integer_ids (callings : list pyval) :
  Forall (λ c, ∃ z, py_getitem c "individualId" = Ok (PInt z)) callings →
  ∀ idx0 idx, index_callings callings idx0 = Ok idx →
  ∀ k, calling_get idx k = calling_get idx0 k.
Proof.
  induction 1 as [|c callings (z & Hz) _ IH]; intros idx0 idx Hrun k.
  - by injection Hrun as <-.
  - simpl in Hrun.
    destruct (py_getitem c "callingName") as [name|]; [|done].
    rewrite Hz in Hrun. simpl in Hrun.
    rewrite (IH _ _ Hrun k). unfold calling_get.
    by rewrite lookup_insert_ne.
Qed.

(** An identifier that is a string is found under itself; the last entry
    for it wins. *)
Lemma index_callings_string_id (c : pyval) (s : string) (name : pyval)
    (idx0 : gmap pykey pyval) :
  py_getitem c "individualId" = Ok (PStr s) →
  py_getitem c "callingName" = Ok name →
  ∃ idx, index_callings [c] idx0 = Ok idx ∧ calling_get idx s = name.
Proof.
  intros Hi Hn. simpl. rewrite Hn, Hi. simpl.
  eexists. split; [done|]. unfold calling_get. by rewrite lookup_insert_eq.
Qed.

(** C2 (the code departs from the claim): with the identifiers as JSON
    numbers, the index files "Bishop" under the number 1, the lookup for
    household 1 asks for the string "1", and both Members come out without
    a calling.  With the identifiers as strings, Member "1" is the
    Bishop. *)
Theorem load_members_integer_ids :
  index_callings integer_callings ∅ = Ok {[KInt 1 := PStr "Bishop"]}
  ∧ callings_by_key (load_members (sample_env integer_payload) initial_state).1
    = [("1", PNone); ("2", PNone)]
  ∧ callings_by_key (load_members (sample_env sample_payload) initial_state).1
    = [("1", PStr "Bishop"); ("2", PNone)].
Proof. repeat split; vm_compute; reflexivity. Qed.

(** * Further properties *)

(** ** Member *)

(** X1: a name put together from comma-free parts with commas comes out as
    those parts, each trimmed, last part first, with single spaces between
    them.  A name without a comma is just trimmed; "last,first" becomes
    "first last". *)
Theorem formatted_name_of_parts (m : Member.t) (parts : list string)
    (Hne : parts ≠ [])
    (Hfree : Forall (λ p, free_of "," p = true) parts)
    (Hname : Member.preferred_name m = PStr (String.concat "," parts)) :
  Member.formatted_name m = Ok (String.concat " " (rev (map trim parts)))
  ∧ (∀ a, parts = [a] → Member.formatted_name m = Ok (trim a))
  ∧ (∀ a b, parts = [a; b] →
            Member.formatted_name m = Ok (trim b +:+ " " +:+ trim a)).
Proof.
  assert (Member.formatted_name m = Ok (String.concat " " (rev (map trim parts))))
    as E.
  { unfold Member.formatted_name, py_join. rewrite Hname, py_split_spec.
    change "," with (str1 ","%char) at 1.
    rewrite split_on_unique by done.
    do 3 f_equal. apply map_ext. intros p. apply py_strip_spec. }
  split; [exact E|]. split.
  - intros a ->. by rewrite E.
  - intros a b ->. by rewrite E.
Qed.

Lemma formatted_name_of_parts_witness :
  Member.formatted_name (sample_member (PInt 1) "Smith,  John " PNone)
  = Ok "John Smith".
Proof.
  apply (proj2 (proj2 (formatted_name_of_parts
                         (sample_member (PInt 1) "Smith,  John " PNone)
                         ["Smith"; "  John "] ltac:(discriminate)
                         ltac:(repeat constructor) eq_refl))
           "Smith" "  John " eq_refl).
Defined.

(** X2: whatever the calling is, [formatted_calling] is never a false
    value: not [None], not the empty string. *)
Theorem formatted_calling_truthy (m : Member.t) :
  truthy (Member.formatted_calling m) = true
  ∧ Member.formatted_calling m ≠ PNone
  ∧ Member.formatted_calling m ≠ PStr EmptyString.
Proof.
  assert (truthy (Member.formatted_calling m) = true) as E.
  { unfold Member.formatted_calling.
    by destruct (truthy (Member.calling m)) eqn:Ht. }
  split; [exact E|]. split; intros H; by rewrite H in E.
Qed.

Lemma py_getitem_error (v : pyval) (k : string) (e : exn) :
  py_getitem v k = Raise e → e = KeyError ∨ e = TypeError.
Proof.
  destruct v; simpl; try (intros [= <-]; by right).
  destruct (dict_lookup k d); [done|]. intros [= <-]. by left.
Qed.

(** Walks through the subscripts of [from_json] in a hypothesis. *)
Ltac step_getitem H :=
  repeat match type of H with
         | context [py_getitem ?a ?k] =>
             let E := fresh "E" in
             destruct (py_getitem a k) eqn:E; cbn [result_bind] in H
         end.

(** X3: a Member that [from_json] returns carries the head of house's
    identifier and the calling it was given, has no image path yet, and
    its address lines are at most five values, none of them false. *)
Theorem from_json_member (data calling : pyval) (m : Member.t)
    (Hm : Member.from_json data calling = Ok m) :
  head_id data = Ok (Member.id m)
  ∧ Member.calling m = calling
  ∧ Member.image_path m = None
  ∧ Forall (λ v, truthy v = true) (Member.address_parts m)
  ∧ length (Member.address_parts m) ≤ 5.
Proof.
  unfold Member.from_json in Hm. step_getitem Hm; try discriminate.
  match type of Hm with
  | context [List.filter truthy ?l] =>
      remember (List.filter truthy l) as addr eqn:Haddr
  end.
  injection Hm as <-. cbn [Member.id Member.calling Member.image_path
                           Member.address_parts].
  split; [unfold head_id; by rewrite E4|]. split; [done|]. split; [done|].
  subst addr. split.
  - apply Forall_forall. intros v Hv.
    by apply list_elem_of_In, filter_In in Hv as [_ Hv].
  - etransitivity; [apply filter_length_le|]. done.
Qed.

Lemma from_json_member_witness :
  head_id (sample_household (PInt 7) "Smith, John") = Ok (PInt 7).
Proof.
  apply (proj1 (from_json_member (sample_household (PInt 7) "Smith, John") PNone
                  {| Member.id := PInt 7;
                     Member.member_number := PStr "000-1111-222A";
                     Member.given_name := PStr "John";
                     Member.surname := PStr "Smith";
                     Member.preferred_name := PStr "Smith, John";
                     Member.email := PStr "js@example.org";
                     Member.phone := PNone;
                     Member.address_parts := [PStr "1 Main St"; PStr "Springfield"];
                     Member.calling := PNone;
                     Member.image_path := None |} eq_refl)).
Defined.

(** X4: [from_json] fails in two ways only.  A record that is not a
    dictionary gives [TypeError]; otherwise a failure is a [KeyError] for a
    key that is not there or a [TypeError] for a head of house that is not
    a dictionary.  In particular a record without [headOfHouse], or whose
    head of house lacks [email] or [phone], is refused. *)
Theorem from_json_failures (data calling : pyval) :
  (∀ e, Member.from_json data calling = Raise e → e = KeyError ∨ e = TypeError)
  ∧ ((∀ d, data ≠ PDict d) → Member.from_json data calling = Raise TypeError)
  ∧ (∀ k, k ∈ ["desc1"; "desc2"; "desc3"; "desc4"; "desc5"; "headOfHouse"] →
          py_getitem data k = Raise KeyError →
          Member.from_json data calling = Raise KeyError)
  ∧ (∀ hoh k, py_getitem data "headOfHouse" = Ok hoh →
              k ∈ ["individualId"; "memberId"; "givenName1"; "surname";
                   "preferredName"; "email"; "phone"] →
              py_getitem hoh k = Raise KeyError →
              ∃ e, Member.from_json data calling = Raise e).
Proof.
  split; [|split; [|split]].
  - intros e He. unfold Member.from_json in He.
    step_getitem He; try discriminate;
      injection He as <-; eapply py_getitem_error; eassumption.
  - intros Hd. destruct data; try done. by destruct (Hd d).
  - intros k Hk Hmiss.
    assert (∀ k', ∃ r, py_getitem data k' = r ∧ (∀ e, r = Raise e → e = KeyError))
      as Hkey.
    { intros k'. eexists. split; [done|]. intros e He.
      destruct data; try done. simpl in He.
      destruct (dict_lookup k' d); congruence. }
    unfold Member.from_json.
    repeat (apply elem_of_cons in Hk as [->|Hk];
            [rewrite ?Hmiss; cbn [result_bind];
             repeat match goal with
                    | |- context [py_getitem data ?k'] =>
                        lazymatch k' with
                        | _ =>
                            let E := fresh "E" in
                            destruct (py_getitem data k') eqn:E;
                            cbn [result_bind];
                            [|destruct (Hkey k') as (r & Hr & Hr');
                              rewrite E in Hr; subst r;
                              by rewrite (Hr' _ eq_refl)]
                        end
                    end; try congruence|]).
    by apply elem_of_nil in Hk.
  - intros hoh k Hh Hk Hmiss.
    destruct (Member.from_json data calling) as [m|e] eqn:Hm; [|by eexists].
    exfalso. unfold Member.from_json in Hm. rewrite Hh in Hm.
    step_getitem Hm; try discriminate.
    repeat (apply elem_of_cons in Hk as [->|Hk]; [congruence|]).
    by apply elem_of_nil in Hk.
Qed.

Lemma from_json_failures_witness :
  Member.from_json household_without_desc3 PNone = Raise KeyError.
Proof.
  apply (proj1 (proj2 (proj2 (from_json_failures household_without_desc3 PNone)))
           "desc3").
  - repeat constructor.
  - reflexivity.
Defined.

(** ** load_members *)

Lemma result_map_length {A B} (f : A → result B) (xs : list A) (ys : list B) :
  result_map f xs = Ok ys → Forall2 (λ x y, f x = Ok y) xs ys.
Proof.
  revert ys. induction xs as [|x xs IH]; intros ys; simpl.
  - intros [= <-]. constructor.
  - destruct (f x) as [y|] eqn:Hy; [|done]. simpl.
    destruct (result_map f xs) as [ys'|]; [|done]. simpl.
    intros [= <-]. constructor; [done | by apply IH].
Qed.

Lemma set_members_run (ms : list Member.t) : ∀ st,
  for_each set_member ms st
  = (with_self (mk_fetcher (_output_dir (self st))
                  (fold_left register ms (_members (self st)))
                  (_ids (self st))) st, Ok tt).
Proof.
  induction ms as [|m ms IH]; intros st; simpl.
  - by destruct st as [[] ? ?].
  - unfold bind. simpl. by rewrite IH.
Qed.

(** The identifiers are the keys of the Members, in the same order. *)
Lemma payload_ids_of_members (data : pyval) (ms : list Member.t) :
  payload_members data = Ok ms → payload_ids data = Ok (map member_key ms).
Proof.
  unfold payload_members, payload_ids.
  destruct (py_getitem data "callings") as [c|]; [|done]. simpl.
  destruct (py_iter c) as [cs|]; [|done]. simpl.
  destruct (index_callings cs ∅) as [idx|]; [|done]. simpl.
  destruct (payload_households data) as [hs|]; [|done]. simpl.
  revert ms. induction hs as [|h hs IH]; intros ms; simpl.
  - by intros [= <-].
  - destruct (head_id h) as [i|] eqn:Hi; [|done]. simpl.
    destruct (Member.from_json h _) as [m|] eqn:Hm; [|done]. simpl.
    destruct (result_map _ hs) as [ms'|]; [|done]. simpl.
    intros [= <-]. rewrite (IH ms' eq_refl). simpl. do 2 f_equal.
    unfold Member.from_json in Hm. step_getitem Hm; try discriminate.
    injection Hm as <-. unfold member_key. simpl.
    unfold head_id in Hi. rewrite E4 in Hi. simpl in Hi. congruence.
Qed.

(** [load_members], step by step. *)
Lemma load_members_run (env : environment) (st : state) :
  load_members env st
  = let st1 := with_log (log st ++ [Get ["unit-members-and-callings"] None]) st in
    match respond_json env (log st) ["unit-members-and-callings"] None with
    | Ok data =>
        match payload_members data with
        | Ok ms =>
            (with_self (mk_fetcher (_output_dir (self st))
                          (fold_left register ms (_members (self st)))
                          (map member_key ms)) st1, Ok tt)
        | Raise e => (st1, Raise e)
        end
    | Raise e => (st1, Raise e)
    end.
Proof.
  cbv zeta. unfold load_members, bind at 1, client_get.
  destruct (respond_json env (log st) _ None) as [data|e]; [|done].
  pose proof (payload_ids_of_members data) as Hids.
  unfold payload_members, payload_ids, payload_households in *.
  unfold bind, lift.
  destruct (py_getitem data "callings") as [c|]; [|done]. simpl in *.
  destruct (py_iter c) as [cs|]; [|done]. simpl in *.
  destruct (index_callings cs ∅) as [idx|]; [|done]. simpl in *.
  destruct (py_getitem data "households") as [h|]; [|done]. simpl in *.
  destruct (py_iter h) as [hs|]; [|done]. simpl in *.
  destruct (result_map _ hs) as [ms|]; [|done].
  rewrite set_members_run. simpl.
  by rewrite (Hids ms eq_refl).
Qed.

(** *** The dictionary under repeated assignment *)

Lemma dict_get_None_keys {V} (k : string) (d : list (string * V)) :
  dict_get k d = None ↔ k ∉ map fst d.
Proof.
  induction d as [|[k' v] d IH]; simpl.
  - split; [intros _; apply not_elem_of_nil | done].
  - destruct (String.eqb_spec k' k) as [->|Hne].
    + split; [done|]. intros H. destruct H. left.
    + rewrite IH, not_elem_of_cons. split; [by split | by intros [_ ?]].
Qed.

Lemma dict_set_keys_new {V} (k : string) (v : V) (d : list (string * V)) :
  dict_get k d = None → map fst (dict_set k v d) = map fst d ++ [k].
Proof.
  induction d as [|[k' v'] d IH]; simpl; [done|].
  destruct (String.eqb k' k); [done|]. intros H. simpl. by rewrite (IH H).
Qed.

Lemma dict_set_keys_NoDup {V} (k : string) (v : V) (d : list (string * V)) :
  NoDup (map fst d) → NoDup (map fst (dict_set k v d)).
Proof.
  intros Hd. destruct (dict_get k d) as [w|] eqn:Hk.
  - by rewrite (dict_set_keys k v w d Hk).
  - rewrite (dict_set_keys_new k v d Hk).
    apply NoDup_app. split; [done|]. split; [|apply NoDup_singleton].
    intros x Hx ->%list_elem_of_singleton. by apply dict_get_None_keys in Hk.
Qed.

Lemma dict_set_keys_incl {V} (k k' : string) (v : V) (d : list (string * V)) :
  k' ∈ map fst d → k' ∈ map fst (dict_set k v d).
Proof.
  intros Hk'. destruct (dict_get k d) as [w|] eqn:Hk.
  - by rewrite (dict_set_keys k v w d Hk).
  - rewrite (dict_set_keys_new k v d Hk). apply elem_of_app. by left.
Qed.

Lemma dict_set_Forall {V} (P : string * V → Prop) (k : string) (v : V)
    (d : list (string * V)) :
  P (k, v) → Forall P d → Forall P (dict_set k v d).
Proof.
  intros Hv. induction 1 as [|[k' v'] d Hx Hd IH]; simpl.
  - by constructor.
  - destruct (String.eqb_spec k' k) as [->|_]; constructor; done.
Qed.

Lemma dict_get_register_all (k : string) (ms : list Member.t) :
  ∀ d, dict_get k (fold_left register ms d)
       = last_registered k ms (dict_get k d).
Proof.
  unfold last_registered.
  induction ms as [|m ms IH]; intros d; simpl; [done|].
  rewrite IH. unfold register at 1. by rewrite dict_get_set.
Qed.

Lemma last_registered_none (k : string) (ms : list Member.t)
    (before : option Member.t) :
  Forall (λ m, member_key m ≠ k) ms → last_registered k ms before = before.
Proof.
  unfold last_registered. revert before.
  induction ms as [|m ms IH]; intros before Hms; simpl; [done|].
  inversion Hms as [|? ? Hm Hrest]; subst.
  rewrite IH by done. by apply String.eqb_neq in Hm as ->.
Qed.

Lemma last_registered_split (k : string) (pre post : list Member.t)
    (m : Member.t) (before : option Member.t) :
  member_key m = k → Forall (λ m', member_key m' ≠ k) post →
  last_registered k (pre ++ m :: post) before = Some m.
Proof.
  intros Hk Hpost. unfold last_registered.
  rewrite fold_left_app. simpl. rewrite Hk, String.eqb_refl.
  by apply last_registered_none.
Qed.

Lemma last_registered_some (k : string) (ms : list Member.t)
    (before : option Member.t) :
  (∃ m, m ∈ ms ∧ member_key m = k) →
  ∃ m, last_registered k ms before = Some m ∧ m ∈ ms ∧ member_key m = k.
Proof.
  unfold last_registered. revert before.
  induction ms as [|m ms IH] using rev_ind; intros before (m0 & Hin & Hk).
  - by apply elem_of_nil in Hin.
  - rewrite fold_left_app. simpl.
    destruct (String.eqb_spec (member_key m) k) as [Hm|Hm].
    + exists m. split; [done|]. split; [|done]. apply elem_of_app. right. left.
    + apply elem_of_app in Hin as [Hin|Hin].
      * destruct (IH before) as (m1 & H1 & H2 & H3); [by exists m0|].
        exists m1. split; [done|]. split; [|done]. apply elem_of_app. by left.
      * apply list_elem_of_singleton in Hin as ->. done.
Qed.

Lemma registry_ok_register (out : string) (ids ids' : list string)
    (ms : list Member.t) : ∀ d,
  registry_ok (mk_fetcher out d ids) →
  registry_ok (mk_fetcher out (fold_left register ms d) ids').
Proof.
  induction ms as [|m ms IH]; intros d [Hnd Hkeys]; simpl; [done|].
  apply IH. split; simpl in *.
  - by apply dict_set_keys_NoDup.
  - by apply dict_set_Forall.
Qed.

Lemma payload_members_households (data : pyval) (ms : list Member.t) :
  payload_members data = Ok ms →
  ∃ hs, payload_households data = Ok hs
        ∧ Forall2 (λ h m, ∃ c, Member.from_json h c = Ok m) hs ms.
Proof.
  unfold payload_members.
  destruct (py_getitem data "callings") as [c|]; [|done]. simpl.
  destruct (py_iter c) as [cs|]; [|done]. simpl.
  destruct (index_callings cs ∅) as [idx|]; [|done]. simpl.
  destruct (payload_households data) as [hs|]; [|done]. simpl.
  intros Hms. exists hs. split; [done|].
  apply result_map_length in Hms.
  eapply Forall2_impl; [exact Hms|]. simpl. intros h m Hm.
  destruct (head_id h); [|done]. eexists. exact Hm.
Qed.

Lemma from_json_key (h c : pyval) (m : Member.t) :
  Member.from_json h c = Ok m →
  ∃ i, head_id h = Ok i ∧ member_key m = py_str i ∧ Member.image_path m = None.
Proof.
  intros Hm. unfold Member.from_json in Hm. step_getitem Hm; try discriminate.
  match type of Hm with
  | context [List.filter truthy ?l] =>
      remember (List.filter truthy l) as addr eqn:Haddr
  end.
  injection Hm as <-. eexists. split; [unfold head_id; by rewrite E4|]. done.
Qed.

(** X5: when [load_members] raises, the object is as it was: no Member
    is added or replaced and the identifiers stay.  Only the request has
    been made. *)
Theorem load_members_failure (env : environment) (st st' : state) (e : exn)
    (Hrun : load_members env st = (st', Raise e)) :
  self st' = self st
  ∧ cache st' = cache st
  ∧ log st' = log st ++ [Get ["unit-members-and-callings"] None].
Proof.
  rewrite load_members_run in Hrun. cbv zeta in Hrun.
  destruct (respond_json env (log st) _ None) as [data|e1].
  - destruct (payload_members data) as [ms|e2]; [done|].
    by injection Hrun as <- _.
  - by injection Hrun as <- _.
Qed.

Lemma load_members_failure_witness :
  self (load_members (sample_env (PDict [("households", PList [])]))
          one_cached_state).1
  = self one_cached_state.
Proof.
  apply (proj1 (load_members_failure (sample_env (PDict [("households", PList [])]))
                  one_cached_state _ KeyError eq_refl)).
Defined.

(** X6: a run of [load_members] that returns has made one request, has
    left the cache alone, and has set the identifiers to one per household
    of the payload, in the payload's order, each the [str] of that
    household's head-of-house identifier; a household listed twice is
    there twice. *)
Theorem load_members_ids (env : environment) (st st' : state)
    (Hrun : load_members env st = (st', Ok tt)) :
  ∃ data households,
    respond_json env (log st) ["unit-members-and-callings"] None = Ok data
    ∧ payload_households data = Ok households
    ∧ Forall2 (λ h k, ∃ i, head_id h = Ok i ∧ k = py_str i)
        households (_ids (self st'))
    ∧ log st' = log st ++ [Get ["unit-members-and-callings"] None]
    ∧ cache st' = cache st
    ∧ _output_dir (self st') = _output_dir (self st).
Proof.
  rewrite load_members_run in Hrun. cbv zeta in Hrun.
  destruct (respond_json env (log st) _ None) as [data|e1]; [|done].
  destruct (payload_members data) as [ms|e2] eqn:Hms; [|done].
  injection Hrun as <-.
  destruct (payload_members_households data ms Hms) as (hs & Hhs & Hall).
  exists data, hs. simpl. repeat split; try done.
  apply Forall2_fmap_r. eapply Forall2_impl; [exact Hall|]. simpl.
  intros h m (c & Hm). destruct (from_json_key h c m Hm) as (i & Hi & Hk & _).
  by exists i.
Qed.

Lemma load_members_ids_witness : _ids (self loaded_state) = ["1"; "2"].
Proof.
  destruct (load_members_ids (sample_env sample_payload) initial_state
              loaded_state eq_refl)
    as (data & hs & Hdata & Hhs & Hids & _).
  injection Hdata as <-. injection Hhs as <-.
  apply Forall2_cons_inv_l in Hids as (k1 & ids1 & (i1 & [= <-] & ->) & Hids & ->).
  apply Forall2_cons_inv_l in Hids as (k2 & ids2 & (i2 & [= <-] & ->) & Hids & ->).
  apply Forall2_nil_inv_l in Hids as ->. reflexivity.
Defined.

(** The Members filed by a run of [load_members] that returns. *)
Lemma load_members_fresh (env : environment) (st st' : state) :
  load_members env st = (st', Ok tt) →
  ∀ k, k ∈ _ids (self st') →
       ∃ m, dict_get k (_members (self st')) = Some m
            ∧ member_key m = k
            ∧ Member.image_path m = None.
Proof.
  intros Hrun.
  rewrite load_members_run in Hrun. cbv zeta in Hrun.
  destruct (respond_json env (log st) _ None) as [data|e1]; [|done].
  destruct (payload_members data) as [ms|e2] eqn:Hms; [|done].
  injection Hrun as <-. simpl. intros k Hk.
  apply list_elem_of_fmap in Hk as (m0 & -> & Hin).
  rewrite dict_get_register_all.
  destruct (last_registered_some (member_key m0) ms
              (dict_get (member_key m0) (_members (self st))))
    as (m & Hlast & Hm & Hkey); [by exists m0|].
  exists m. split; [done|]. split; [done|].
  destruct (payload_members_households data ms Hms) as (hs & _ & Hall).
  apply list_elem_of_lookup in Hm as (n & Hn).
  destruct (Forall2_lookup_r _ _ _ _ _ Hall Hn) as (h & _ & c & Hc).
  by destruct (from_json_key h c m Hc) as (i & _ & _ & Himg).
Qed.

(** X7: after a run of [load_members] that returns, every expected
    identifier is a key of the registry, the Member under it has that
    identifier as the [str] of its [id], and that Member is fresh: it has
    no image path, whatever an earlier Member under the key had. *)
Theorem load_members_registers_ids (env : environment) (st st' : state)
    (Hrun : load_members env st = (st', Ok tt)) :
  ∀ k, k ∈ _ids (self st') →
       ∃ m, dict_get k (_members (self st')) = Some m
            ∧ member_key m = k
            ∧ Member.image_path m = None.
Proof. by apply (load_members_fresh env st st'). Qed.

Lemma load_members_registers_ids_witness :
  ∃ m, dict_get "2" (_members (self loaded_state)) = Some m
       ∧ member_key m = "2" ∧ Member.image_path m = None.
Proof.
  apply (load_members_registers_ids (sample_env sample_payload) initial_state
           loaded_state eq_refl "2").
  right. left.
Defined.

(** X8: [load_members] adds and replaces, it never removes.  However the
    run ends, a key of the registry stays a key, and a Member whose key is
    not among the identifiers expected afterwards is exactly as it was,
    image path included; when the run raises, the whole registry is as it
    was. *)
Theorem load_members_keeps_others (env : environment) (st : state) :
  let st' := (load_members env st).1 in
  (∀ k, k ∈ map fst (_members (self st)) → k ∈ map fst (_members (self st')))
  ∧ (∀ k m, dict_get k (_members (self st)) = Some m →
            k ∉ _ids (self st') →
            dict_get k (_members (self st')) = Some m)
  ∧ (∀ k, k ∉ _ids (self st') →
          dict_get k (_members (self st')) = dict_get k (_members (self st)))
  ∧ (∀ e, (load_members env st).2 = Raise e →
          _members (self st') = _members (self st)).
Proof.
  cbv zeta. rewrite load_members_run. cbv zeta.
  destruct (respond_json env (log st) _ None) as [data|e1]; [|done].
  destruct (payload_members data) as [ms|e2] eqn:Hms; [|done].
  simpl.
  assert (∀ k, k ∉ map member_key ms →
               dict_get k (fold_left register ms (_members (self st)))
               = dict_get k (_members (self st))) as Hother.
  { intros k Hk. rewrite dict_get_register_all.
    apply last_registered_none. apply Forall_forall. intros m Hm <-.
    apply Hk. apply list_elem_of_fmap. by exists m. }
  split; [|split; [|split]].
  - intros k. generalize (_members (self st)). clear.
    induction ms as [|m ms IH]; intros d Hk; simpl; [done|].
    apply IH. by apply dict_set_keys_incl.
  - intros k m Hm Hk. by rewrite Hother.
  - exact Hother.
  - done.
Qed.

Lemma load_members_keeps_others_witness :
  dict_get "9" (_members (self (load_members (sample_env sample_payload)
                                   stale_state).1))
  = Some (Member.set_image_path "/out/cache/9.jpg"
            (sample_member (PStr "9") "Elder, Ann" (PStr "Organist"))).
Proof.
  apply (proj1 (proj2 (load_members_keeps_others (sample_env sample_payload)
                         stale_state)) "9").
  - reflexivity.
  - intros H. repeat (apply elem_of_cons in H as [H|H]; [discriminate|]).
    by apply elem_of_nil in H.
Defined.

(** X9: when several households of a payload have the same head-of-house
    identifier, the registry ends up with the Member built from the last
    of them. *)
Theorem load_members_last_household_wins (env : environment) (st st' : state)
    (data : pyval) (pre post : list pyval) (h i : pyval)
    (Hrun : load_members env st = (st', Ok tt))
    (Hdata : respond_json env (log st) ["unit-members-and-callings"] None
             = Ok data)
    (Hhouseholds : payload_households data = Ok (pre ++ h :: post))
    (Hid : head_id h = Ok i)
    (Hlast : Forall (λ h', ∀ i', head_id h' = Ok i' → py_str i' ≠ py_str i) post) :
  ∃ m c, dict_get (py_str i) (_members (self st')) = Some m
         ∧ Member.from_json h c = Ok m.
Proof.
  rewrite load_members_run in Hrun. cbv zeta in Hrun. rewrite Hdata in Hrun.
  destruct (payload_members data) as [ms|e2] eqn:Hms; [|done].
  injection Hrun as <-. simpl.
  destruct (payload_members_households data ms Hms) as (hs & Hhs & Hall).
  rewrite Hhouseholds in Hhs. injection Hhs as <-.
  apply Forall2_app_inv_l in Hall as (ms1 & ms2 & Hpre & Hrest & ->).
  apply Forall2_cons_inv_l in Hrest as (m & ms3 & (c & Hm) & Hpost & ->).
  exists m, c. split; [|done].
  destruct (from_json_key h c m Hm) as (i0 & Hi0 & Hkey & _).
  rewrite Hid in Hi0. injection Hi0 as <-.
  rewrite dict_get_register_all. apply last_registered_split; [done|].
  apply Forall_forall. intros m' Hm' Hk.
  apply list_elem_of_lookup in Hm' as (n & Hn).
  destruct (Forall2_lookup_r _ _ _ _ _ Hpost Hn) as (h' & Hh' & c' & Hc').
  destruct (from_json_key h' c' m' Hc') as (i' & Hi' & Hkey' & _).
  rewrite Forall_forall in Hlast.
  apply (Hlast h' (list_elem_of_lookup_2 _ _ _ Hh') i' Hi'). congruence.
Qed.

Lemma load_members_last_household_wins_witness :
  ∃ m c, dict_get "1"
           (_members (self (load_members (sample_env twice_payload)
                              initial_state).1)) = Some m
         ∧ Member.from_json (sample_household (PStr "1") "Smith, Mary") c = Ok m.
Proof.
  apply (load_members_last_household_wins (sample_env twice_payload)
           initial_state _ twice_payload
           [sample_household (PStr "1") "Smith, John"] []
           (sample_household (PStr "1") "Smith, Mary") (PStr "1")
           eq_refl eq_refl eq_refl eq_refl).
  constructor.
Defined.

(** ** The registry as a dictionary *)

Lemma dict_get_elem {V} (k : string) (v : V) (d : list (string * V)) :
  dict_get k d = Some v → (k, v) ∈ d.
Proof.
  induction d as [|[k' v'] d IH]; simpl; [done|].
  destruct (String.eqb_spec k' k) as [->|_].
  - intros [= ->]. left.
  - intros H. right. by apply IH.
Qed.

Lemma registry_ok_annotate (out : string) (ids : list string) (dir : string)
    (cached : list string) : ∀ d,
  registry_ok (mk_fetcher out d ids) →
  registry_ok (mk_fetcher out
                 (fold_left (λ ms id, annotate_members dir id ms) cached d) ids).
Proof.
  induction cached as [|id cached IH]; intros d Hd; simpl; [done|].
  apply IH. destruct Hd as [Hnd Hkeys]. simpl in *. split; simpl.
  - by rewrite annotate_members_keys.
  - unfold annotate_members. destruct (dict_get id d) as [m|] eqn:Hm; [|done].
    apply dict_set_Forall; [|done]. simpl.
    rewrite Forall_forall in Hkeys.
    apply (Hkeys _ (dict_get_elem _ _ _ Hm)).
Qed.

(** X10: the registry stays a well-formed dictionary.  A new fetcher has
    one, and neither [load_members] nor [load_member_images], whether they
    return or raise, ever leaves two Members under one key or a Member
    under a key other than the [str] of its [id]. *)
Theorem registry_stays_ok (env : environment) :
  (∀ new_client output_dir user password f,
     init new_client output_dir user password = Ok f → registry_ok f)
  ∧ (∀ st, registry_ok (self st) → registry_ok (self (load_members env st).1))
  ∧ (∀ st download override,
       registry_ok (self st) →
       registry_ok (self (load_member_images env download override st).1)).
Proof.
  split; [|split].
  - intros new_client out u p f. unfold init.
    destruct (falsy_env u || falsy_env p); [done|].
    destruct (new_client u p); [|done]. intros [= <-].
    split; simpl; constructor.
  - intros st Hok. rewrite load_members_run. cbv zeta.
    destruct (respond_json env (log st) _ None) as [data|e]; [|done].
    destruct (payload_members data) as [ms|e]; [|done]. simpl.
    apply registry_ok_register with (ids := _ids (self st)).
    by destruct (self st).
  - intros st download override Hok.
    destruct (has_nul (_cache_dir (self st))) eqn:Hnul.
    { by rewrite load_member_images_nul. }
    rewrite load_member_images_run by done.
    assert (self (ensure_cache st) = self st) as Hself0
      by (unfold ensure_cache; by destruct (cache st)).
    assert (self (if download then _download_images env override (ensure_cache st)
                  else (ensure_cache st, Ok tt)).1 = self st) as Hself.
    { destruct download; simpl; [|done].
      destruct (download_images_frame env override (ensure_cache st) _
                  (cache_ensure_cache st)) as (Hs & _); [by rewrite Hself0|].
      congruence. }
    destruct (if download then _ else _) as [st2 [[]|e]]; simpl in Hself;
      [|simpl; by rewrite Hself].
    destruct (cache st2) as [files|]; [|simpl; by rewrite Hself].
    rewrite annotate_loop_run. simpl. rewrite Hself.
    apply registry_ok_annotate. by destruct (self st).
Qed.

Lemma registry_stays_ok_witness : registry_ok (self loaded_state).
Proof.
  apply (proj1 (proj2 (registry_stays_ok (sample_env sample_payload)))
           initial_state).
  split; simpl; constructor.
Defined.

(** ** The calling index, in general *)

Lemma py_hash_string (v : pyval) (s : string) :
  py_hash v = Ok (KStr s) → v = PStr s.
Proof. destruct v as [|[]| | | |]; simpl; congruence. Qed.

Lemma index_callings_app (pre post : list pyval) : ∀ idx0 idx,
  index_callings (pre ++ post) idx0 = Ok idx →
  ∃ idx1, index_callings pre idx0 = Ok idx1
          ∧ index_callings post idx1 = Ok idx.
Proof.
  induction pre as [|c pre IH]; intros idx0 idx Hrun; simpl in *.
  - by exists idx0.
  - destruct (py_getitem c "callingName") as [name|]; [|done]. simpl in *.
    destruct (py_getitem c "individualId") as [key|]; [|done]. simpl in *.
    destruct (py_hash key) as [h|]; [|done]. simpl in *.
    by apply IH.
Qed.

Lemma index_callings_other (s : string) (callings : list pyval) :
  Forall (λ c, py_getitem c "individualId" ≠ Ok (PStr s)) callings →
  ∀ idx0 idx, index_callings callings idx0 = Ok idx →
  idx !! KStr s = idx0 !! KStr s.
Proof.
  induction 1 as [|c callings Hc _ IH]; intros idx0 idx Hrun; simpl in Hrun.
  - by injection Hrun as <-.
  - destruct (py_getitem c "callingName") as [name|]; [|done]. simpl in Hrun.
    destruct (py_getitem c "individualId") as [key|]; [|done]. simpl in Hrun.
    destruct (py_hash key) as [h|] eqn:Hh; [|done]. simpl in Hrun.
    rewrite (IH _ _ Hrun). apply lookup_insert_ne.
    intros ->. apply py_hash_string in Hh. congruence.
Qed.

(** X11: in the calling index the last entry for an identifier wins: a
    string identifier is looked up to the calling name of the last entry
    of the list that carries it, and to [None] when no entry carries it. *)
Theorem index_callings_last_wins (callings : list pyval)
    (idx : gmap pykey pyval) (s : string)
    (Hrun : index_callings callings ∅ = Ok idx) :
  (∀ pre c post name,
     callings = pre ++ c :: post →
     py_getitem c "individualId" = Ok (PStr s) →
     py_getitem c "callingName" = Ok name →
     Forall (λ c', py_getitem c' "individualId" ≠ Ok (PStr s)) post →
     calling_get idx s = name)
  ∧ (Forall (λ c', py_getitem c' "individualId" ≠ Ok (PStr s)) callings →
     calling_get idx s = PNone).
Proof.
  split.
  - intros pre c post name -> Hid Hname Hpost.
    apply index_callings_app in Hrun as (idx1 & _ & Hrun).
    simpl in Hrun. rewrite Hname, Hid in Hrun. simpl in Hrun.
    unfold calling_get. rewrite (index_callings_other s post Hpost _ _ Hrun).
    by rewrite lookup_insert_eq.
  - intros Hnone. unfold calling_get.
    by rewrite (index_callings_other s callings Hnone _ _ Hrun).
Qed.

Lemma index_callings_last_wins_witness :
  ∃ idx, DataFetcher.index_callings twice_callings ∅ = Ok idx
         ∧ calling_get idx "1" = PStr "Bishop".
Proof.
  eexists. split; [reflexivity|].
  apply (proj1 (index_callings_last_wins twice_callings _ "1" eq_refl)
           [PDict [("individualId", PStr "1"); ("callingName", PStr "Clerk")];
            PDict [("individualId", PStr "2"); ("callingName", PStr "Organist")]]
           (PDict [("individualId", PStr "1"); ("callingName", PStr "Bishop")])
           [] (PStr "Bishop")); try reflexivity.
  constructor.
Defined.

(** ** load_member_images *)

Lemma with_self_same (st : state) :
  with_self (mk_fetcher (_output_dir (self st)) (_members (self st))
               (_ids (self st))) st = st.
Proof. by destruct st as [[] ? ?]. Qed.

(** X12: without [download] the run needs no network: it makes no request,
    never raises (given a directory path the system can represent), leaves
    every cached file as it is, and only creates the cache directory when
    it is missing. *)
Theorem load_member_images_offline (env : environment) (st : state)
    (override : bool)
    (Hnul : has_nul (_cache_dir (self st)) = false) :
  ∃ st', load_member_images env false override st = (st', Ok tt)
         ∧ log st' = log st
         ∧ cache st' = Some (default ∅ (cache st))
         ∧ _ids (self st') = _ids (self st).
Proof.
  rewrite load_member_images_run by done.
  rewrite cache_ensure_cache, annotate_loop_run.
  eexists. split; [done|]. simpl.
  rewrite cache_ensure_cache. unfold ensure_cache.
  by destruct (cache st).
Qed.

Lemma load_member_images_offline_witness :
  ∃ st', load_member_images (sample_env sample_payload) false true
           stray_file_state = (st', Ok tt)
         ∧ log st' = [].
Proof.
  destruct (load_member_images_offline (sample_env sample_payload)
              stray_file_state true eq_refl) as (st' & Hrun & Hlog & _).
  exists st'. split; [exact Hrun | exact Hlog].
Defined.

Lemma dict_set_same {V} (k : string) (v : V) (d : list (string * V)) :
  dict_get k d = Some v → dict_set k v d = d.
Proof.
  induction d as [|[k' v'] d IH]; simpl; [done|].
  destruct (String.eqb_spec k' k) as [->|_].
  - by intros [= ->].
  - intros H. by rewrite (IH H).
Qed.

Lemma set_image_path_same (p : string) (m : Member.t) :
  Member.image_path m = Some p → Member.set_image_path p m = m.
Proof. destruct m. simpl. by intros ->. Qed.

Lemma annotate_fixed (dir : string) (l : list string)
    (x : list (string * Member.t)) :
  Forall (λ id, annotate_members dir id x = x) l →
  fold_left (λ ms id, annotate_members dir id ms) l x = x.
Proof. induction 1 as [|id l Hid _ IH]; simpl; [done|]. by rewrite Hid. Qed.

Lemma annotate_again (dir : string) (cached : list string)
    (ms : list (string * Member.t)) :
  let ms1 := fold_left (λ ms id, annotate_members dir id ms) cached ms in
  fold_left (λ ms id, annotate_members dir id ms) cached ms1 = ms1.
Proof.
  cbv zeta. set (ms1 := fold_left _ cached ms).
  apply annotate_fixed.
  { apply Forall_forall. intros id Hid. unfold annotate_members.
    destruct (dict_get id ms1) as [m1|] eqn:Hm1; [|done].
    apply dict_set_same. rewrite Hm1. f_equal. symmetry.
    apply set_image_path_same.
    subst ms1. rewrite annotate_all_get in Hm1.
    destruct (decide (id ∈ cached)); [|done].
    destruct (dict_get id ms) as [m|]; [|done].
    by injection Hm1 as <-. }
Qed.

Lemma offline_run (env : environment) (st : state) (override : bool) :
  has_nul (_cache_dir (self st)) = false →
  load_member_images env false override st
  = (with_self
       (mk_fetcher (_output_dir (self st))
          (fold_left (λ ms id, annotate_members (_cache_dir (self st)) id ms)
             (downloaded_ids (dir_order env (default ∅ (cache st))))
             (_members (self st)))
          (_ids (self st)))
       (with_cache (Some (default ∅ (cache st))) st), Ok tt).
Proof.
  intros Hnul. rewrite load_member_images_run by done.
  rewrite cache_ensure_cache, annotate_loop_run.
  unfold ensure_cache. by destruct (cache st) eqn:Hc; destruct st; simpl in *; subst.
Qed.

(** X13: annotating is idempotent.  A second run without [download],
    straight after a first, changes nothing at all: same registry, same
    cache, same log. *)
Theorem load_member_images_offline_twice (env : environment) (st : state)
    (override override' : bool)
    (Hnul : has_nul (_cache_dir (self st)) = false) :
  let st1 := (load_member_images env false override st).1 in
  load_member_images env false override' st1 = (st1, Ok tt).
Proof.
  cbv zeta. rewrite (offline_run env st override Hnul).
  cbn [fst]. rewrite offline_run by done.
  cbn [self cache with_self with_cache _output_dir _members _ids default].
  change (_cache_dir (mk_fetcher (_output_dir (self st)) ?a ?b))
    with (_cache_dir (self st)).
  by rewrite annotate_again.
Qed.

Lemma load_member_images_offline_twice_witness :
  load_member_images (sample_env sample_payload) false false after_stray_file
  = (after_stray_file, Ok tt).
Proof.
  apply (load_member_images_offline_twice (sample_env sample_payload)
           stray_file_state false false eq_refl).
Defined.

(** The object after any run of [load_member_images]: the registry has
    been annotated for some list of identifiers (none, if the run stopped
    early), and nothing else has changed. *)
Lemma load_member_images_self (env : environment) (st : state)
    (download override : bool) :
  ∃ cached,
    self (load_member_images env download override st).1
    = mk_fetcher (_output_dir (self st))
        (fold_left (λ ms id, annotate_members (_cache_dir (self st)) id ms)
           cached (_members (self st)))
        (_ids (self st)).
Proof.
  assert (self st = mk_fetcher (_output_dir (self st))
                      (fold_left (λ ms id, annotate_members (_cache_dir (self st)) id ms)
                         [] (_members (self st)))
                      (_ids (self st))) as Hnone by (by destruct (self st)).
  destruct (has_nul (_cache_dir (self st))) eqn:Hnul.
  { rewrite load_member_images_nul by done. by exists []. }
  rewrite load_member_images_run by done.
  assert (self (ensure_cache st) = self st) as Hself0
    by (unfold ensure_cache; by destruct (cache st)).
  assert (self (if download then _download_images env override (ensure_cache st)
                else (ensure_cache st, Ok tt)).1 = self st) as Hself.
  { destruct download; simpl; [|done].
    destruct (download_images_frame env override (ensure_cache st) _
                (cache_ensure_cache st)) as (Hs & _); [by rewrite Hself0|].
    congruence. }
  destruct (if download then _ else _) as [st2 [[]|e]]; simpl in Hself;
    [|exists []; simpl; by rewrite Hself].
  destruct (cache st2) as [files|]; [|exists []; simpl; by rewrite Hself].
  rewrite annotate_loop_run. simpl. rewrite Hself. by eexists.
Qed.

Lemma dict_set_map {V W} (g : V → W) (k : string) (v w : V)
    (d : list (string * V)) :
  dict_get k d = Some w → g v = g w →
  map (λ kv, (kv.1, g kv.2)) (dict_set k v d) = map (λ kv, (kv.1, g kv.2)) d.
Proof.
  intros Hk Hg. induction d as [|[k' v'] d IH]; simpl in *; [done|].
  destruct (String.eqb k' k); simpl.
  - injection Hk as ->. by rewrite Hg.
  - by rewrite (IH Hk).
Qed.

Lemma annotate_all_forget (dir : string) (cached : list string) :
  ∀ ms : list (string * Member.t),
  map (λ kv, (kv.1, forget_image kv.2))
    (fold_left (λ ms id, annotate_members dir id ms) cached ms)
  = map (λ kv, (kv.1, forget_image kv.2)) ms.
Proof.
  induction cached as [|id cached IH]; intros ms; simpl; [done|].
  rewrite IH. unfold annotate_members.
  destruct (dict_get id ms) as [m|] eqn:Hm; [|done].
  by apply dict_set_map with (w := m).
Qed.

(** X14: [image_path] is the only thing [load_member_images] ever changes
    in the object.  After any run, returned or raised, the identifiers and
    the output directory are the same, [members] lists the same Members in
    the same order with every other field untouched, and a Member that had
    an image path still has one: a path is set or replaced, never taken
    away, even when its file is no longer in the cache. *)
Theorem load_member_images_changes_image_path_only (env : environment)
    (st : state) (download override : bool) :
  let st' := (load_member_images env download override st).1 in
  _ids (self st') = _ids (self st)
  ∧ _output_dir (self st') = _output_dir (self st)
  ∧ map fst (_members (self st')) = map fst (_members (self st))
  ∧ map forget_image (members (self st'))
    = map forget_image (members (self st))
  ∧ (∀ k m, dict_get k (_members (self st)) = Some m →
            is_Some (Member.image_path m) →
            ∃ m', dict_get k (_members (self st')) = Some m'
                  ∧ is_Some (Member.image_path m')).
Proof.
  cbv zeta. destruct (load_member_images_self env st download override)
    as (cached & ->). simpl.
  split; [done|]. split; [done|]. split; [apply annotate_all_keys|]. split.
  - pose proof (annotate_all_forget (_cache_dir (self st)) cached
                  (_members (self st))) as E.
    apply (f_equal (map snd)) in E. rewrite !map_map in E. simpl in E.
    unfold members, dict_values. by rewrite !map_map.
  - intros k m Hm Himg. rewrite annotate_all_get, Hm.
    destruct (decide (k ∈ cached)); simpl; eauto.
Qed.

Lemma load_member_images_changes_image_path_only_witness :
  ∃ m', dict_get "1" (_members (self after_stray_file)) = Some m'
        ∧ is_Some (Member.image_path m').
Proof.
  apply (proj2 (proj2 (proj2 (proj2
           (load_member_images_changes_image_path_only
              (sample_env sample_payload) after_stray_file false false))))
           "1" (Member.set_image_path "/out/cache/1.jpg"
                  (sample_member (PStr "1") "Smith, John" PNone))).
  - reflexivity.
  - eexists. reflexivity.
Defined.

(** ** What a download never does *)

Lemma download_file_keeps (env : environment) (file_path : string)
    (url : pyval) (st : state) (n : string) :
  is_Some (file_at st n) →
  is_Some (file_at (_download_file env file_path url st).1 n).
Proof.
  unfold _download_file, bind, session_get.
  destruct (respond_stream env (log st) url) as [res|e]; simpl; [|done].
  unfold open_wb. simpl.
  destruct (has_nul file_path); simpl; [done|].
  destruct (entry_of_path (_cache_dir (self st)) file_path) as [name|];
    simpl; [|done].
  unfold file_at at 1. destruct (cache st) as [files|] eqn:Hc; simpl;
    [|by intros [? ?]].
  intros Hn. rewrite write_chunks_run. simpl.
  assert (is_Some (alter (λ old, old ++ concat (chunks res)) name
                     (<[name:=[]]> files) !! n)) as Hkeep.
  { destruct (decide (name = n)) as [->|Hne].
    - rewrite lookup_alter_eq, lookup_insert_eq. simpl. eauto.
    - by rewrite lookup_alter_ne, lookup_insert_ne. }
  destruct (broken res); simpl; unfold file_at; simpl; done.
Qed.

Lemma download_entry_keeps (env : environment) (photo_data : pyval)
    (st : state) (n : string) :
  is_Some (file_at st n) →
  is_Some (file_at (download_entry env photo_data st).1 n).
Proof.
  intros Hn.
  destruct (py_getitem photo_data "largeUri") as [large|e] eqn:Hl.
  2:{ unfold download_entry, bind, lift. by rewrite Hl. }
  destruct (truthy large) eqn:Ht.
  2:{ by rewrite (download_entry_skip env _ _ _ Hl Ht). }
  destruct (py_getitem photo_data "individualId") as [i|e] eqn:Hi.
  2:{ unfold download_entry, bind, lift. by rewrite Hl, Ht, Hi. }
  rewrite (download_entry_fetch env _ large i st (conj Hl Ht) Hi).
  by apply download_file_keeps.
Qed.

Lemma download_loop_keeps (env : environment) (photos : list pyval)
    (n : string) : ∀ st,
  is_Some (file_at st n) →
  is_Some (file_at (for_each (download_entry env) photos st).1 n).
Proof.
  induction photos as [|p photos IH]; intros st Hn; simpl; [done|].
  unfold bind.
  pose proof (download_entry_keeps env p st n Hn) as Hp.
  destruct (download_entry env p st) as [st1 [[]|e]]; simpl in *; [|done].
  by apply IH.
Qed.

(** X15: [load_member_images] never deletes from the cache.  Whatever the
    flags and however the run ends, every file that was in the cache is
    still there (its content may have been downloaded anew), and the cache
    directory exists afterwards. *)
Theorem load_member_images_keeps_files (env : environment) (st : state)
    (download override : bool)
    (Hnul : has_nul (_cache_dir (self st)) = false) :
  let st' := (load_member_images env download override st).1 in
  is_Some (cache st')
  ∧ (∀ n, is_Some (file_at st n) → is_Some (file_at st' n)).
Proof.
  cbv zeta. rewrite load_member_images_run by done.
  assert (self (ensure_cache st) = self st) as Hself0
    by (unfold ensure_cache; by destruct (cache st)).
  assert (∀ n, is_Some (file_at st n) → is_Some (file_at (ensure_cache st) n))
    as Hensure.
  { intros n. unfold file_at, ensure_cache. destruct (cache st) eqn:Hc; [|by intros [? ?]].
    by rewrite Hc. }
  assert (is_Some (cache (if download
                          then _download_images env override (ensure_cache st)
                          else (ensure_cache st, Ok tt)).1)
          ∧ ∀ n, is_Some (file_at st n) →
                 is_Some (file_at (if download
                                   then _download_images env override (ensure_cache st)
                                   else (ensure_cache st, Ok tt)).1 n)) as [Hsome Hkeep].
  { destruct download; simpl.
    - destruct (download_images_frame env override (ensure_cache st) _
                  (cache_ensure_cache st)) as (_ & Hc & _); [by rewrite Hself0|].
      split; [done|]. intros n Hn%Hensure.
      rewrite (download_images_run env override (ensure_cache st) _
                 (cache_ensure_cache st)) by (by rewrite Hself0).
      cbv zeta.
      destruct (respond_json env _ _ _) as [data|e]; [|done].
      destruct (py_iter data) as [photos|e]; [|done].
      by apply download_loop_keeps.
    - split; [rewrite cache_ensure_cache; eauto | done]. }
  destruct (if download then _ else _) as [st2 [[]|e]]; simpl in *; [|done].
  destruct Hsome as [files Hc]. rewrite Hc, annotate_loop_run. simpl.
  split; [rewrite Hc; eauto|]. intros n Hn%Hkeep.
  unfold file_at in *. simpl. done.
Qed.

Lemma load_member_images_keeps_files_witness :
  is_Some (file_at after_stray_file "1").
Proof.
  apply (proj2 (load_member_images_keeps_files (sample_env sample_payload)
                  stray_file_state false false eq_refl) "1").
  eexists. reflexivity.
Defined.

(** ** How the download pass fails *)

(** X16: [_download_images] called without [override] while the cache
    directory does not exist stops with [FileNotFoundError] before any
    request is made.  With [override] it does not list the directory: the
    request goes out all the same, for every expected identifier. *)
Theorem download_images_without_directory (env : environment) (st : state)
    (Hnone : cache st = None)
    (Hnul : has_nul (_cache_dir (self st)) = false) :
  _download_images env false st = (st, Raise FileNotFoundError)
  ∧ ∃ ids rest,
      ids ≡ₚ elements (list_to_set (_ids (self st)) : gset string)
      ∧ log (_download_images env true st).1
        = log st ++ photo_url_request ids :: rest.
Proof.
  split.
  - unfold _download_images, bind, get_state, os_listdir, in_cache_dir.
    cbn [negb]. cbv beta iota.
    by rewrite String.eqb_refl, Hnul, Hnone.
  - assert (∃ rest, log (_download_images env true st).1
                    = log st ++ photo_url_request
                                  (set_order env (_ids (self st)) []) :: rest)
      as [rest Hrest].
    { unfold _download_images, bind, get_state, ret, client_get, lift.
      cbn [negb]. cbv beta iota.
      destruct (respond_json env (log st) _ _) as [data|e]; [|by exists []].
      destruct (py_iter data) as [photos|e]; [|by exists []].
      match goal with
      | |- context [for_each _ photos ?s] =>
          destruct (download_loop_frame env photos s)
            as (_ & (rest & Hlog & _) & _)
      end.
      exists rest. rewrite Hlog. simpl. by rewrite <- app_assoc. }
    exists (set_order env (_ids (self st)) []), rest.
    split; [by rewrite set_order_perm, missing_set_override | done].
Qed.

Lemma download_images_without_directory_witness :
  _download_images (sample_env sample_payload) false loaded_state
  = (loaded_state, Raise FileNotFoundError).
Proof.
  apply (proj1 (download_images_without_directory (sample_env sample_payload)
                  loaded_state eq_refl eq_refl)).
Defined.

(** X17: when the photo-url request raises, or its answer is not something
    to iterate over (null, a number, a boolean), or is a non-empty object
    (say, an error message) instead of a list, [_download_images] stops
    with that exception ([TypeError] in the last two cases) after its one
    request, and the cache is untouched. *)
Theorem download_images_bad_answer (env : environment) (st : state)
    (override : bool) (files : gmap string (list byte))
    (Hcache : cache st = Some files)
    (Hnul : has_nul (_cache_dir (self st)) = false) :
  let downloaded :=
    if override then [] else downloaded_ids (dir_order env files) in
  let ids := set_order env (_ids (self st)) downloaded in
  let answer :=
    respond_json env (log st) ["photo-url"; "individual"]
      (Some (py_join "," ids)) in
  let stopped e :=
    _download_images env override st
    = (with_log (log st ++ [photo_url_request ids]) st, Raise e) in
  (∀ e, answer = Raise e → stopped e)
  ∧ (answer = Ok PNone → stopped TypeError)
  ∧ (∀ z, answer = Ok (PInt z) → stopped TypeError)
  ∧ (∀ b, answer = Ok (PBool b) → stopped TypeError)
  ∧ (∀ k v d, answer = Ok (PDict ((k, v) :: d)) → stopped TypeError).
Proof.
  cbv zeta. rewrite (download_images_run env override st files Hcache Hnul).
  cbv zeta. repeat split; intros; rewrite H; try reflexivity.
Qed.

Lemma download_images_bad_answer_witness :
  _download_images refusing_env true all_cached_state
  = (with_log [photo_url_request ["1"]] all_cached_state, Raise TypeError).
Proof.
  apply (proj2 (proj2 (proj2 (proj2
           (download_images_bad_answer refusing_env all_cached_state true
              {["1.jpg" := []]} eq_refl eq_refl))))
           "error" (PStr "not authorised") []).
  reflexivity.
Defined.

(** X18: what [_download_file] leaves on disk.  Once the request has been
    answered and the file opened, the file holds exactly the bytes of the
    chunks received, in order, in place of whatever it held before; no
    other file changes.  If the stream breaks off, the exception is raised
    and the file keeps the part received. *)
Theorem download_file_stores_stream (env : environment)
    (file_path name : string) (url : pyval) (st : state) (res : stream)
    (files : gmap string (list byte))
    (Hres : respond_stream env (log st) url = Ok res)
    (Hnul : has_nul file_path = false)
    (Hentry : entry_of_path (_cache_dir (self st)) file_path = Some name)
    (Hcache : cache st = Some files) :
  let st' := (_download_file env file_path url st).1 in
  file_at st' name = Some (concat (chunks res))
  ∧ (∀ n, n ≠ name → file_at st' n = file_at st n)
  ∧ (_download_file env file_path url st).2
    = match broken res with Some e => Raise e | None => Ok tt end
  ∧ log st' = log st ++ [SessionGet url]
  ∧ self st' = self st.
Proof.
  cbv zeta.
  rewrite (download_file_ok env file_path name url st res files) by done.
  unfold file_at. simpl. rewrite Hcache.
  split; [apply lookup_insert_eq|].
  split; [intros n Hn; by apply lookup_insert_ne|]. done.
Qed.

Lemma download_file_stores_stream_witness :
  file_at (_download_file (sample_env sample_payload) "/out/cache/7.jpg"
             (PStr "https://photos.example.org/7") one_cached_state).1 "7.jpg"
  = Some [x89; x50; x4e; x47]%byte.
Proof.
  apply (download_file_stores_stream (sample_env sample_payload)
           "/out/cache/7.jpg" "7.jpg" (PStr "https://photos.example.org/7")
           one_cached_state sample_stream {["1.jpg" := []]}
           eq_refl eq_refl eq_refl eq_refl).
Defined.

(** X19: a download that fails before the file is opened leaves the cache
    exactly as it was.  That is so when the request for the photo raises,
    and when the path cannot be opened because it holds a NUL character or
    because the cache directory is missing; in the last two cases the
    request has been made all the same. *)
Theorem download_file_early_failure (env : environment) (file_path : string)
    (url : pyval) (st : state) :
  let requested := with_log (log st ++ [SessionGet url]) st in
  (∀ e, respond_stream env (log st) url = Raise e →
        _download_file env file_path url st = (requested, Raise e))
  ∧ (∀ res, respond_stream env (log st) url = Ok res →
            has_nul file_path = true →
            _download_file env file_path url st = (requested, Raise ValueError))
  ∧ (∀ res name, respond_stream env (log st) url = Ok res →
                 has_nul file_path = false →
                 entry_of_path (_cache_dir (self st)) file_path = Some name →
                 cache st = None →
                 _download_file env file_path url st
                 = (requested, Raise FileNotFoundError)).
Proof.
  cbv zeta. unfold _download_file, bind, session_get, open_wb.
  split; [|split].
  - intros e ->. done.
  - intros res -> Hnul. simpl. by rewrite Hnul.
  - intros res name -> Hnul Hentry Hc. simpl. by rewrite Hnul, Hentry, Hc.
Qed.

Lemma download_file_early_failure_witness :
  cache (_download_file offline_photos_env "/out/cache/7.jpg"
           (PStr "https://photos.example.org/7") one_cached_state).1
  = cache one_cached_state.
Proof.
  rewrite (proj1 (download_file_early_failure offline_photos_env
                    "/out/cache/7.jpg" (PStr "https://photos.example.org/7")
                    one_cached_state) (RemoteError 503) eq_refl).
  reflexivity.
Defined.

(** ** How the passes fit together *)

Lemma contains_char_app (c : ascii) (a b : string) :
  contains (str1 c) a = false → contains (str1 c) b = false →
  contains (str1 c) (a +:+ b) = false.
Proof.
  intros Ha Hb. induction a as [|x a IH]; [done|].
  cbn [contains] in Ha. apply orb_false_iff in Ha as [H1 H2].
  change (String x a +:+ b) with (String x (a +:+ b)).
  cbn [contains]. rewrite (IH H2), orb_false_r.
  simpl in *. by destruct (Ascii.eqb c x).
Qed.

Lemma image_path_nul_free (f : fetcher) (id : string) :
  has_nul (_cache_dir f) = false → has_nul id = false →
  contains "/" id = false →
  has_nul (os_path_join (_cache_dir f) (id +:+ ".jpg")) = false.
Proof.
  intros Hd Hid Hslash.
  rewrite cache_dir_join by (by apply slash_free_start).
  unfold has_nul in *. repeat apply contains_char_app; done.
Qed.

(** X20: a photo that has been downloaded counts as cached from then on.
    For an identifier free of slashes, of ".jpg" and of NUL, once
    [download_entry] has opened the file, the identifier is among those
    derived from the listing, so no later run reports it missing; this
    holds as well when the stream broke off and the file is incomplete. *)
Theorem downloaded_photo_is_cached (env : environment) (photo_data url i : pyval)
    (st : state) (res : stream) (files : gmap string (list byte))
    (Hphoto : has_photo photo_data url)
    (Hid : py_getitem photo_data "individualId" = Ok i)
    (Hslash : contains "/" (py_str i) = false)
    (Hjpg : contains ".jpg" (py_str i) = false)
    (Hnul : has_nul (py_str i) = false)
    (Hdir : has_nul (_cache_dir (self st)) = false)
    (Hcache : cache st = Some files)
    (Hres : respond_stream env (log st) url = Ok res) :
  ∃ files', cache (download_entry env photo_data st).1 = Some files'
            ∧ files' !! (py_str i +:+ ".jpg") = Some (concat (chunks res))
            ∧ py_str i ∈ downloaded_ids (dir_order env files')
            ∧ ∀ ids, py_str i ∉ missing_set ids
                                  (downloaded_ids (dir_order env files')).
Proof.
  rewrite (download_entry_fetch env photo_data url i st Hphoto Hid).
  rewrite (download_file_ok env _ (py_str i +:+ ".jpg") url st res files);
    [|done|by apply image_path_nul_free|by apply entry_of_image_path|done].
  eexists. split; [done|]. split; [apply lookup_insert_eq|].
  assert (py_str i ∈ downloaded_ids
            (dir_order env (<[py_str i +:+ ".jpg" := concat (chunks res)]> files)))
    as Hin.
  { unfold downloaded_ids. apply list_elem_of_fmap.
    exists (py_str i +:+ ".jpg"). split.
    - unfold cached_id. by rewrite py_replace_jpg_suffix.
    - rewrite dir_order_perm. apply elem_of_elements, elem_of_dom.
      rewrite lookup_insert_eq. eauto. }
  split; [done|]. intros ids. unfold missing_set.
  rewrite elem_of_difference, !elem_of_list_to_set. by intros [_ ?].
Qed.

Lemma downloaded_photo_is_cached_witness :
  ∃ files', cache (download_entry (sample_env sample_payload)
                     (PDict [("individualId", PInt 2);
                             ("largeUri", PStr "https://photos.example.org/2")])
                     one_cached_state).1 = Some files'
            ∧ "2" ∈ downloaded_ids (dir_order (sample_env sample_payload) files').
Proof.
  destruct (downloaded_photo_is_cached (sample_env sample_payload)
              (PDict [("individualId", PInt 2);
                      ("largeUri", PStr "https://photos.example.org/2")])
              (PStr "https://photos.example.org/2") (PInt 2)
              one_cached_state sample_stream {["1.jpg" := []]}
              (conj eq_refl eq_refl) eq_refl eq_refl eq_refl eq_refl eq_refl
              eq_refl eq_refl)
    as (files' & Hc & _ & Hin & _).
  exists files'. split; [exact Hc | exact Hin].
Defined.

(** X21: the loop over the metadata stops at the first entry it cannot
    read.  If the entries before it went through and it has no [largeUri]
    to subscript (the key is missing, or the entry is not an object), the
    exception ends the pass there: what was downloaded so far stays, and
    no entry after it is looked at, requested or written. *)
Theorem download_loop_stops (env : environment) (pre post : list pyval)
    (p : pyval) (st st1 : state) (e : exn)
    (Hpre : for_each (download_entry env) pre st = (st1, Ok tt))
    (Hp : py_getitem p "largeUri" = Raise e) :
  for_each (download_entry env) (pre ++ p :: post) st = (st1, Raise e).
Proof.
  revert st Hpre. induction pre as [|q pre IH]; intros st Hpre; simpl in *.
  - injection Hpre as <-. unfold bind, download_entry, bind, lift. by rewrite Hp.
  - unfold bind in *. destruct (download_entry env q st) as [st2 [[]|e2]];
      [|done]. by apply IH.
Qed.

Lemma download_loop_stops_witness :
  for_each (download_entry (sample_env sample_payload))
    ([PDict [("individualId", PInt 3); ("largeUri", PStr "")]]
     ++ entry_without_uri
     :: [PDict [("individualId", PInt 2);
                ("largeUri", PStr "https://photos.example.org/2")]])
    one_cached_state
  = (one_cached_state, Raise KeyError).
Proof.
  apply (download_loop_stops (sample_env sample_payload)); reflexivity.
Defined.

Lemma load_member_images_success (env : environment) (st st' : state)
    (download override : bool) :
  load_member_images env download override st = (st', Ok tt) →
  ∃ files,
    cache st' = Some files
    ∧ self st'
      = mk_fetcher (_output_dir (self st))
          (fold_left (λ ms id, annotate_members (_cache_dir (self st)) id ms)
             (downloaded_ids (dir_order env files)) (_members (self st)))
          (_ids (self st)).
Proof.
  intros Hrun. destruct (has_nul (_cache_dir (self st))) eqn:Hnul.
  { by rewrite load_member_images_nul in Hrun. }
  rewrite load_member_images_run in Hrun by done.
  assert (self (ensure_cache st) = self st) as Hself0
    by (unfold ensure_cache; by destruct (cache st)).
  assert (self (if download then _download_images env override (ensure_cache st)
                else (ensure_cache st, Ok tt)).1 = self st) as Hself.
  { destruct download; simpl; [|done].
    destruct (download_images_frame env override (ensure_cache st) _
                (cache_ensure_cache st)) as (Hs & _); [by rewrite Hself0|].
    congruence. }
  destruct (if download then _ else _) as [st2 [[]|e]]; [|done].
  simpl in Hself. destruct (cache st2) as [files|] eqn:Hc; [|done].
  rewrite annotate_loop_run in Hrun. injection Hrun as <-.
  exists files. simpl. by rewrite Hself.
Qed.

Lemma member_key_set_image_path (p : string) (m : Member.t) :
  member_key (Member.set_image_path p m) = member_key m.
Proof. done. Qed.

(** X22: the two calls of the script, taken together.  When
    [load_members] and then [load_member_images] return, every expected
    identifier has its Member in the registry, and that Member's image
    path is [os.path.join(cache_dir, key + '.jpg')] if the key is among the
    identifiers derived from the final cache listing, and [None] if it is
    not: no path is left over from an earlier load. *)
Theorem fetch_annotates_expected (env : environment) (st st' : state)
    (download override : bool)
    (Hrun : fetch env download override st = (st', Ok tt)) :
  ∃ files,
    cache st' = Some files
    ∧ ∀ k, k ∈ _ids (self st') →
           ∃ m, dict_get k (_members (self st')) = Some m
                ∧ member_key m = k
                ∧ Member.image_path m
                  = if decide (k ∈ downloaded_ids (dir_order env files))
                    then Some (os_path_join (_cache_dir (self st'))
                                 (k +:+ ".jpg"))
                    else None.
Proof.
  unfold fetch, bind in Hrun.
  destruct (load_members env st) as [st1 [[]|e]] eqn:Hload; [|done].
  destruct (load_member_images_success env st1 st' download override Hrun)
    as (files & Hc & Hself).
  exists files. split; [done|]. rewrite Hself. simpl.
  change (_cache_dir (mk_fetcher (_output_dir (self st1)) ?a ?b))
    with (_cache_dir (self st1)).
  intros k Hk.
  destruct (load_members_fresh env st st1 Hload k Hk) as (m & Hm & Hkey & Himg).
  rewrite annotate_all_get, Hm.
  destruct (decide (k ∈ downloaded_ids (dir_order env files))); simpl.
  - eexists. split; [done|]. by split.
  - exists m. by rewrite Himg.
Qed.

Lemma fetch_annotates_expected_witness :
  ∃ files, cache (fetch (sample_env sample_payload) true false initial_state).1
           = Some files.
Proof.
  destruct (fetch_annotates_expected (sample_env sample_payload) initial_state
              after_first_run true false)
    as (files & Hc & _).
  - vm_compute. reflexivity.
  - exists files. exact Hc.
Defined.

(** ** The fetcher's construction and its list of Members *)

(** X23: a fetcher is constructed only when both the user and the
    password are set and not empty and the client's constructor has
    returned.  With a credential missing or empty the construction raises
    before the client is built; with both set it fails exactly when the
    client's constructor raises, and with that exception.  A new fetcher
    has no Members and expects no identifiers. *)
Theorem init_requires_credentials
    (new_client : option string → option string → result unit)
    (output_dir : string) (user password : option string) :
  (∀ f, init new_client output_dir user password = Ok f →
        (∃ u p, user = Some u ∧ password = Some p
                ∧ u ≠ EmptyString ∧ p ≠ EmptyString
                ∧ new_client user password = Ok tt)
        ∧ members f = [] ∧ _ids f = []
        ∧ _cache_dir f = os_path_join output_dir "cache")
  ∧ (user = None ∨ user = Some EmptyString
     ∨ password = None ∨ password = Some EmptyString →
     init new_client output_dir user password = Raise CredentialsNotSet)
  ∧ (∀ u p, user = Some u → password = Some p →
            u ≠ EmptyString → p ≠ EmptyString →
            init new_client output_dir user password
            = match new_client user password with
              | Ok _ => Ok (mk_fetcher output_dir [] [])
              | Raise e => Raise e
              end).
Proof.
  unfold init, falsy_env. split; [|split].
  - intros f.
    destruct user as [u|], password as [p|]; simpl; try done;
      destruct (String.eqb_spec u ""); simpl; try done.
    destruct (String.eqb_spec p ""); simpl; try done.
    destruct (new_client (Some u) (Some p)) as [[]|] eqn:Hc; simpl; [|done].
    intros [= <-]. split; [by exists u, p | done].
  - intros [-> | [-> | [-> | ->]]]; simpl; try done.
    + destruct user as [u|]; simpl; [|done]. by destruct (String.eqb u "").
    + destruct user as [u|]; simpl; [|done]. by destruct (String.eqb u "").
  - intros u p -> -> Hu Hp.
    by destruct (String.eqb_spec u ""), (String.eqb_spec p "").
Qed.

Lemma init_requires_credentials_witness :
  init (λ _ _, Raise (RemoteError 401)) "/out" (Some "user") (Some "secret")
  = Raise (RemoteError 401).
Proof.
  apply (proj2 (proj2 (init_requires_credentials
                         (λ _ _, Raise (RemoteError 401)) "/out"
                         (Some "user") (Some "secret")))
           "user" "secret"); [reflexivity | reflexivity | discriminate | discriminate].
Defined.

Lemma register_keys (d : list (string * Member.t)) (m : Member.t) :
  map fst (register d m)
  = if decide (member_key m ∈ map fst d) then map fst d
    else map fst d ++ [member_key m].
Proof.
  unfold register. destruct (dict_get (member_key m) d) as [w|] eqn:Hk.
  - rewrite (dict_set_keys _ _ w d Hk).
    destruct (decide (member_key m ∈ map fst d)) as [_|Hn]; [done|].
    destruct Hn. apply dec_stable. intros Hn.
    apply dict_get_None_keys in Hn. congruence.
  - rewrite (dict_set_keys_new _ _ d Hk).
    destruct (decide (member_key m ∈ map fst d)) as [Hin|_]; [|done].
    by apply dict_get_None_keys in Hk.
Qed.

Lemma register_all_keys (ms : list Member.t) : ∀ d,
  map fst (fold_left register ms d)
  = map fst d ++ filter (λ k, k ∉ map fst d) (distinct (map member_key ms)).
Proof.
  induction ms as [|m ms IH]; intros d; simpl.
  - by rewrite app_nil_r.
  - rewrite IH, register_keys.
    destruct (decide (member_key m ∈ map fst d)) as [Hin|Hout].
    + rewrite filter_cons_False by (intros H; by apply H).
      f_equal. symmetry. apply list_filter_filter_l. intros x Hx ->.
      by apply Hx.
    + rewrite filter_cons_True by done.
      rewrite <- app_assoc. simpl. do 2 f_equal.
      rewrite list_filter_filter. apply list_filter_iff.
      intros x. rewrite elem_of_app, list_elem_of_singleton. tauto.
Qed.

Lemma distinct_elem (l : list string) (x : string) : x ∈ distinct l ↔ x ∈ l.
Proof.
  induction l as [|y l IH]; simpl; [done|].
  rewrite !elem_of_cons, list_elem_of_filter, IH.
  destruct (decide (x = y)) as [->|Hne]; [by split; left|].
  split; [intros [?|[_ ?]]; [done | by right] | intros [?|?]; [done|by right]].
Qed.

Lemma distinct_NoDup (l : list string) : NoDup (distinct l).
Proof.
  induction l as [|y l IH]; simpl; constructor.
  - rewrite list_elem_of_filter. by intros [? _].
  - by apply NoDup_filter.
Qed.

Lemma registry_ok_keys (env : environment) (st st' : state) :
  _members (self st) = [] → load_members env st = (st', Ok tt) →
  map fst (_members (self st')) = distinct (_ids (self st'))
  ∧ map fst (_members (self st')) = map member_key (members (self st')).
Proof.
  intros Hempty Hrun. rewrite load_members_run in Hrun. cbv zeta in Hrun.
  destruct (respond_json env (log st) _ None) as [data|e1]; [|done].
  destruct (payload_members data) as [ms|e2]; [|done].
  injection Hrun as <-. simpl. rewrite Hempty. split.
  - rewrite register_all_keys. simpl.
    generalize (distinct (map member_key ms)). intros l.
    induction l as [|k l IHl]; [done|].
    rewrite filter_cons_True by apply not_elem_of_nil. by rewrite IHl.
  - unfold members, dict_values. simpl. rewrite map_map.
    assert (Forall (λ kv : string * Member.t, kv.1 = member_key kv.2)
              (fold_left register ms [])) as Hok.
    { apply (registry_ok_register "" [] [] ms []). split; constructor. }
    induction Hok as [|kv l Hkv _ IH]; simpl; [done|]. by rewrite Hkv, IH.
Qed.

(** X24: starting from an empty registry, [members] after [load_members]
    lists one Member for each distinct expected identifier, in the order
    in which the identifiers first occur among the households. *)
Theorem load_members_order (env : environment) (st st' : state)
    (Hempty : _members (self st) = [])
    (Hrun : load_members env st = (st', Ok tt)) :
  map member_key (members (self st')) = distinct (_ids (self st'))
  ∧ map fst (_members (self st')) = distinct (_ids (self st'))
  ∧ NoDup (map member_key (members (self st')))
  ∧ (∀ k, k ∈ map member_key (members (self st')) ↔ k ∈ _ids (self st')).
Proof.
  destruct (registry_ok_keys env st st' Hempty Hrun) as [Hfst Hkeys].
  assert (map member_key (members (self st')) = distinct (_ids (self st')))
    as E by (by rewrite <- Hkeys).
  split; [done|]. split; [done|]. rewrite E.
  split; [apply distinct_NoDup | intros k; apply distinct_elem].
Qed.

Lemma load_members_order_witness :
  map member_key
    (members (self (load_members (sample_env twice_payload) initial_state).1))
  = ["1"].
Proof.
  apply (proj1 (load_members_order (sample_env twice_payload) initial_state _
                  eq_refl eq_refl)).
Defined.
